(** * desktop_notifier.base: the notification registry of [DesktopNotifierBase]

    A shallow embedding of [src/desktop_notifier/base.py] and the properties of
    its bookkeeping: the bounded deque [_current_notifications], the index
    [_notification_for_nid], and the wrappers [send], [clear], [clear_all] and
    [_clear_notification_from_cache] around the platform methods [_send],
    [_clear] and [_clear_all].

    Python objects live in a heap indexed by object identity; the notifier
    keeps references to them, so that a notification held both by the deque
    and by the index, or sent twice, is one shared object. *)

From stdpp Require Import base numbers list strings gmap.

Local Open Scope Z_scope.

(** ** Python values *)

(** Exceptions. [CancelledError] ([asyncio.CancelledError], from Python 3.8
    on) and [KeyboardInterrupt] derive from [BaseException] alone; the others
    are subclasses of [Exception]. *)
Inductive exn :=
  | IndexError
  | ValueError
  | KeyError
  | OverflowError
  | NotImplementedError
  | AuthorisationError
  | PlatformError (msg : string)
  | CancelledError
  | KeyboardInterrupt.

(** Whether the class of the exception derives from [Exception]. *)
Definition is_Exception (e : exn) : bool :=
  match e with
  | CancelledError | KeyboardInterrupt => false
  | _ => true
  end.

Global Instance exn_eq_dec : EqDecision exn.
Proof. solve_decision. Defined.

(** [Union[str, int]]: the platform identifier of a notification. *)
Inductive ident :=
  | IdInt (z : Z)
  | IdStr (s : string).

Global Instance ident_eq_dec : EqDecision ident.
Proof. solve_decision. Defined.

Definition ident_to_sum (i : ident) : Z + string :=
  match i with IdInt z => inl z | IdStr s => inr s end.

Definition ident_of_sum (x : Z + string) : ident :=
  match x with inl z => IdInt z | inr s => IdStr s end.

Global Instance ident_countable : Countable ident.
Proof.
  apply (inj_countable' ident_to_sum ident_of_sum).
  intros []; reflexivity.
Defined.

(** Truth value of a [str]: only the empty string is false. *)
Definition str_truthy (s : string) : bool :=
  match s with EmptyString => false | String _ _ => true end.

(** Truth value of an [Optional[str]]: [None] and the empty string are false. *)
Definition opt_str_truthy (o : option string) : bool :=
  match o with None => false | Some s => str_truthy s end.

(** Truth value of a [Union[str, int, None]]: [None], [0] and the empty
    string are false. *)
Definition ident_truthy (i : ident) : bool :=
  match i with IdInt z => negb (z =? 0) | IdStr s => str_truthy s end.

Definition opt_ident_truthy (o : option ident) : bool :=
  match o with None => false | Some i => ident_truthy i end.

(** ** class NotificationLevel *)

Inductive NotificationLevel := Critical | Normal | Low.

(** ** class Notification *)

(** Identity of a Python object. [Notification] defines no [__eq__], so two
    notifications are equal exactly when they are the same object. *)
Definition ref := nat.

(** Callables are opaque handles: base.py stores them and never calls them. *)
Definition callback := nat.

Record Notification := mkNotification {
  _identifier : option ident;
  title : string;
  message : string;
  urgency : NotificationLevel;
  icon : option string;
  buttons : list (string * callback);
  reply_field : bool;
  on_clicked : option callback;
  on_dismissed : option callback;
  on_replied : option callback;
  attachment : option string;
  sound : bool;
  thread : option string;
}.

(** [Notification.__init__]: the identifier starts out as [None];
    [buttons or dict()] turns a missing (or empty) mapping into the empty one. *)
Definition Notification__init__
    (title message : string) (urgency : NotificationLevel)
    (icon : option string) (buttons : option (list (string * callback)))
    (reply_field : bool) (on_clicked on_dismissed on_replied : option callback)
    (attachment : option string) (sound : bool) (thread : option string)
    : Notification :=
  {| _identifier := None;
     title := title;
     message := message;
     urgency := urgency;
     icon := icon;
     buttons := default [] buttons;
     reply_field := reply_field;
     on_clicked := on_clicked;
     on_dismissed := on_dismissed;
     on_replied := on_replied;
     attachment := attachment;
     sound := sound;
     thread := thread |}.

(** The property [identifier] reads [_identifier]. *)
Definition identifier (n : Notification) : option ident := _identifier n.

(** [notification.identifier = value] *)
Definition set_identifier (value : option ident) (n : Notification) : Notification :=
  {| _identifier := value;
     title := title n; message := message n; urgency := urgency n;
     icon := icon n; buttons := buttons n; reply_field := reply_field n;
     on_clicked := on_clicked n; on_dismissed := on_dismissed n;
     on_replied := on_replied n; attachment := attachment n;
     sound := sound n; thread := thread n |}.

(** [notification.icon = value] *)
Definition set_icon (value : option string) (n : Notification) : Notification :=
  {| _identifier := _identifier n;
     title := title n; message := message n; urgency := urgency n;
     icon := value; buttons := buttons n; reply_field := reply_field n;
     on_clicked := on_clicked n; on_dismissed := on_dismissed n;
     on_replied := on_replied n; attachment := attachment n;
     sound := sound n; thread := thread n |}.

(** [Notification.__repr__]; [self.__class__.__name__] is [Notification] for
    an object of the class itself. *)
Definition Notification__repr__ (n : Notification) : string :=
  "<Notification(title='" +:+ title n +:+ "', message='" +:+ message n +:+ "')>".

(** ** collections.deque, as used by the notifier *)

Module deque.

(** [deque.remove] deletes the first occurrence only. *)
Fixpoint remove_first (x : ref) (l : list ref) : list ref :=
  match l with
  | [] => []
  | y :: l' => if decide (y = x) then l' else y :: remove_first x l'
  end.

(** [deque.append] on a deque of maximal length [maxlen]: a full deque
    drops its leftmost item, and nothing fits in a deque of length 0. *)
Definition append (maxlen : option Z) (x : ref) (l : list ref) : list ref :=
  match maxlen with
  | None => l ++ [x]
  | Some m =>
      if decide (m = 0) then l
      else if decide (Z.of_nat (length l) = m) then tail l ++ [x]
      else l ++ [x]
  end.

(** [deque.appendleft]: a full deque drops its rightmost item. *)
Definition appendleft (maxlen : option Z) (x : ref) (l : list ref) : list ref :=
  match maxlen with
  | None => x :: l
  | Some m =>
      if decide (m = 0) then l
      else if decide (Z.of_nat (length l) = m) then x :: removelast l
      else x :: l
  end.

End deque.

(** ** class DesktopNotifierBase: state *)

(** The deque is created as [deque([], notification_limit)] and neither its
    [maxlen] nor the attribute [notification_limit] is assigned afterwards, so
    the field [notification_limit] serves as both. *)
Record DesktopNotifierBase := mkNotifier {
  app_name : string;
  app_icon : option string;
  notification_limit : option Z;
  _current_notifications : list ref;
  _notification_for_nid : gmap ident ref;
}.

Record world := mkWorld {
  heap : ref → Notification;
  self : DesktopNotifierBase;
}.

(** What leaves the notifier: calls of the platform methods that subclasses
    implement, and records handed to the logger. [CallSend] carries the state
    of the notification object at the time of the call. *)
Inductive event :=
  | CallSend (notification : ref) (state : Notification) (notification_to_replace : option ref)
  | CallClear (notification : ref)
  | CallClearAll
  | LogWarning (msg : string).

(** What the platform method answers: a value, or an exception. *)
Inductive reply (A : Type) :=
  | Answers (a : A)
  | Throws (e : exn).
Arguments Answers {A} a.
Arguments Throws {A} e.

(** ** Computations: state, emitted events, and exceptions *)

Inductive completion (A : Type) :=
  | Returned (a : A)
  | Raised (e : exn).
Arguments Returned {A} a.
Arguments Raised {A} e.

Definition M (A : Type) : Type := world → world * list event * completion A.

Global Instance M_ret : MRet M := λ A a w, (w, [], Returned a).

Global Instance M_bind : MBind M := λ A B k m w,
  match m w with
  | (w1, ev1, Returned a) =>
      match k a w1 with (w2, ev2, c) => (w2, ev1 ++ ev2, c) end
  | (w1, ev1, Raised e) => (w1, ev1, Raised e)
  end.

Definition raise {A} (e : exn) : M A := λ w, (w, [], Raised e).

Definition emit (e : event) : M unit := λ w, (w, [e], Returned tt).

Definition gets {A} (f : world → A) : M A := λ w, (w, [], Returned (f w)).

Definition modify (f : world → world) : M unit := λ w, (f w, [], Returned tt).

(** [try: body / except <catches>: handler / else: orelse]. An exception the
    clause does not catch propagates. *)
Definition try_except_else {A B}
    (body : M A) (catches : exn → bool) (handler : M B) (orelse : A → M B) : M B :=
  λ w,
  match body w with
  | (w1, ev1, Returned a) =>
      match orelse a w1 with (w2, ev2, c) => (w2, ev1 ++ ev2, c) end
  | (w1, ev1, Raised e) =>
      if catches e
      then match handler w1 with (w2, ev2, c) => (w2, ev1 ++ ev2, c) end
      else (w1, ev1, Raised e)
  end.

Definition except_Exception : exn → bool := is_Exception.
Definition except_ValueError : exn → bool := λ e, bool_decide (e = ValueError).
Definition except_KeyError : exn → bool := λ e, bool_decide (e = KeyError).

Definition pass : M unit := mret tt.

(** Accessors of the outcome of a computation. *)
Definition final {A} (r : world * list event * completion A) : world := r.1.1.
Definition emitted {A} (r : world * list event * completion A) : list event := r.1.2.
Definition result {A} (r : world * list event * completion A) : completion A := r.2.

(** *** Attribute access *)

Definition with_self (f : DesktopNotifierBase → DesktopNotifierBase) (w : world) : world :=
  {| heap := heap w; self := f (self w) |}.

Definition with_object (r : ref) (f : Notification → Notification) (w : world) : world :=
  {| heap := λ r', if decide (r' = r) then f (heap w r') else heap w r';
     self := self w |}.

Definition set_current (l : list ref) (s : DesktopNotifierBase) : DesktopNotifierBase :=
  {| app_name := app_name s; app_icon := app_icon s;
     notification_limit := notification_limit s;
     _current_notifications := l;
     _notification_for_nid := _notification_for_nid s |}.

Definition set_for_nid (m : gmap ident ref) (s : DesktopNotifierBase) : DesktopNotifierBase :=
  {| app_name := app_name s; app_icon := app_icon s;
     notification_limit := notification_limit s;
     _current_notifications := _current_notifications s;
     _notification_for_nid := m |}.

(** [self._current_notifications.popleft()] *)
Definition current_popleft : M ref := λ w,
  match _current_notifications (self w) with
  | [] => (w, [], Raised IndexError)
  | x :: l => (with_self (set_current l) w, [], Returned x)
  end.

(** [self._current_notifications.append(x)] *)
Definition current_append (x : ref) : M unit :=
  modify (with_self (λ s,
    set_current (deque.append (notification_limit s) x (_current_notifications s)) s)).

(** [self._current_notifications.appendleft(x)] *)
Definition current_appendleft (x : ref) : M unit :=
  modify (with_self (λ s,
    set_current (deque.appendleft (notification_limit s) x (_current_notifications s)) s)).

(** [self._current_notifications.remove(x)]: [ValueError] when [x] is absent. *)
Definition current_remove (x : ref) : M unit := λ w,
  if decide (x ∈ _current_notifications (self w))
  then (with_self (λ s, set_current (deque.remove_first x (_current_notifications s)) s) w,
        [], Returned tt)
  else (w, [], Raised ValueError).

(** [self._current_notifications.clear()] *)
Definition current_clear : M unit := modify (with_self (set_current [])).

(** [self._notification_for_nid[k] = v] *)
Definition for_nid_setitem (k : ident) (v : ref) : M unit :=
  modify (with_self (λ s, set_for_nid (<[k:=v]> (_notification_for_nid s)) s)).

(** [self._notification_for_nid.pop(k)]: [KeyError] when [k] is absent. *)
Definition for_nid_pop (k : ident) : M ref := λ w,
  match _notification_for_nid (self w) !! k with
  | Some v => (with_self (λ s, set_for_nid (delete k (_notification_for_nid s)) s) w,
               [], Returned v)
  | None => (w, [], Raised KeyError)
  end.

(** [self._notification_for_nid.clear()] *)
Definition for_nid_clear : M unit := modify (with_self (set_for_nid ∅)).

(** [logger.warning(msg, exc_info=True)] *)
Definition logger_warning (msg : string) : M unit := emit (LogWarning msg).

(** ** class DesktopNotifierBase: methods *)

(** [sys.maxsize], the largest [Py_ssize_t], on a 64-bit build. *)
Definition sys_maxsize : Z := 2 ^ 63 - 1.

(** [__init__]. [deque([], notification_limit)] raises [OverflowError] for a
    [maxlen] that is no [Py_ssize_t] and [ValueError] for a negative one. *)
Definition DesktopNotifierBase__init__
    (app_name : string) (app_icon : option string) (notification_limit : option Z)
    : completion DesktopNotifierBase :=
  match notification_limit with
  | Some m =>
      if decide (m < - sys_maxsize - 1 ∨ sys_maxsize < m) then Raised OverflowError
      else if decide (m < 0) then Raised ValueError
      else Returned (mkNotifier app_name app_icon notification_limit [] ∅)
  | None => Returned (mkNotifier app_name app_icon notification_limit [] ∅)
  end.

(** The platform methods, implemented by subclasses. The call is recorded and
    the platform's answer [r] is passed on: the identifier (for [_send]) or an
    exception. The methods of the base class itself answer
    [Throws NotImplementedError]. An implementation leaves the deque and the
    index to the wrappers below; it reports a closed notification through
    [_clear_notification_from_cache], which is a call of its own. *)
Definition _send (notification : ref) (notification_to_replace : option ref)
    (r : reply ident) : M ident :=
  n ← gets (λ w, heap w notification);
  emit (CallSend notification n notification_to_replace);;
  match r with Answers nid => mret nid | Throws e => raise e end.

Definition _clear (notification : ref) (r : reply unit) : M unit :=
  emit (CallClear notification);;
  match r with Answers _ => mret tt | Throws e => raise e end.

Definition _clear_all (r : reply unit) : M unit :=
  emit CallClearAll;;
  match r with Answers _ => mret tt | Throws e => raise e end.

(** [request_authorisation] and [has_authorisation]: the base class raises
    [NotImplementedError]. *)
Definition request_authorisation : M bool := raise NotImplementedError.

Definition has_authorisation : M bool := raise NotImplementedError.

(** [send] *)
Definition send (notification : ref) (platform : reply ident) : M unit :=
  n ← gets (λ w, heap w notification);
  (if negb (opt_str_truthy (icon n))
   then app_icon ← gets (λ w, app_icon (self w));
        modify (with_object notification (set_icon app_icon))
   else pass);;
  len ← gets (λ w, length (_current_notifications (self w)));
  limit ← gets (λ w, notification_limit (self w));
  notification_to_replace ←
    (if decide (Some (Z.of_nat len) = limit)
     then x ← current_popleft; mret (Some x)
     else mret None);
  try_except_else
    (_send notification notification_to_replace platform)
    except_Exception
    ((match notification_to_replace with   (* an object is always true *)
      | Some r => current_appendleft r
      | None => pass
      end);;
     logger_warning "Notification failed")
    (λ platform_nid,
       modify (with_object notification (set_identifier (Some platform_nid)));;
       current_append notification;;
       for_nid_setitem platform_nid notification).

(** [_clear_notification_from_cache] *)
Definition _clear_notification_from_cache (notification : ref) : M unit :=
  try_except_else (current_remove notification) except_ValueError pass (λ _, pass);;
  n ← gets (λ w, heap w notification);
  match identifier n with
  | Some nid =>
      if ident_truthy nid
      then try_except_else (for_nid_pop nid) except_KeyError pass (λ _, pass)
      else pass
  | None => pass
  end.

(** The property [current_notifications]: a copy of the deque as a list. *)
Definition current_notifications (w : world) : list ref :=
  _current_notifications (self w).

(** [clear] *)
Definition clear (notification : ref) (platform : reply unit) : M unit :=
  n ← gets (λ w, heap w notification);
  (if opt_ident_truthy (identifier n)
   then _clear notification platform
   else pass);;
  _clear_notification_from_cache notification.

(** [clear_all] *)
Definition clear_all (platform : reply unit) : M unit :=
  _clear_all platform;;
  current_clear;;
  for_nid_clear.

(** ** Runs of the notifier *)

(** One call from outside: the application calls [send], [clear] or
    [clear_all], or the platform reports a closed notification, upon which the
    backend calls [_clear_notification_from_cache]. Each call comes with the
    answer the platform gives if the call reaches it. *)
Inductive op :=
  | Send (notification : ref) (platform : reply ident)
  | Clear (notification : ref) (platform : reply unit)
  | ClearAll (platform : reply unit)
  | Closed (notification : ref).

Definition exec (o : op) : M unit :=
  match o with
  | Send n r => send n r
  | Clear n r => clear n r
  | ClearAll r => clear_all r
  | Closed n => _clear_notification_from_cache n
  end.

(** A caller that carries on after an exception sees the state as the failed
    call left it. *)
Fixpoint run (ops : list op) (w : world) : world :=
  match ops with
  | [] => w
  | o :: ops' => run ops' (final (exec o w))
  end.

(** The notifier right after construction, next to the objects of the
    application. *)
Definition start (h : ref → Notification) (s : DesktopNotifierBase) : world :=
  {| heap := h; self := s |}.

(** The events of a run, call after call. *)
Fixpoint trace (ops : list op) (w : world) : list event :=
  match ops with
  | [] => []
  | o :: ops' => emitted (exec o w) ++ trace ops' (final (exec o w))
  end.

(** ** Notions for the statements *)

(** The notifications, and the identifiers, of the calls of [send] that the
    platform answers with an identifier. Unless the limit is 0, these are the
    calls that reach the platform and return with the notification delivered;
    with limit 0 no call reaches the platform. *)
Definition delivered (ops : list op) : list ref :=
  flat_map (λ o, match o with Send n (Answers _) => [n] | _ => [] end) ops.

Definition delivered_ids (ops : list op) : list ident :=
  flat_map (λ o, match o with Send _ (Answers k) => [k] | _ => [] end) ops.

Definition is_send (o : op) : bool :=
  match o with Send _ _ => true | _ => false end.

Definition is_removal (o : op) : bool :=
  match o with Clear _ _ | Closed _ => true | _ => false end.

(** The notification that a call pushes out of the deque for good: the
    oldest one, when a delivered [send] finds the deque full. *)
Definition evicts (w : world) (o : op) : list ref :=
  match o with
  | Send _ (Answers _) =>
      if decide (Some (Z.of_nat (length (current_notifications w)))
                 = notification_limit (self w))
      then take 1 (current_notifications w)
      else []
  | _ => []
  end.

Fixpoint evicted (ops : list op) (w : world) : list ref :=
  match ops with
  | [] => []
  | o :: ops' => evicts w o ++ evicted ops' (final (exec o w))
  end.

(** The last [n] items of a list (all of them when there are fewer). *)
Definition lastn (n : nat) (l : list ref) : list ref :=
  drop (length l - n) l.

(** How often an object sits in a list. *)
Definition occurrences (x : ref) (l : list ref) : nat :=
  length (filter (λ y, y = x) l).

(** The icon a notification goes out with: the icons, in the calls of the
    platform's [_send] that one [send] makes. *)
Definition icon_sent (w : world) (n : ref) (r : reply ident) : list (option string) :=
  flat_map (λ e, match e with CallSend _ st _ => [icon st] | _ => [] end)
           (emitted (send n r w)).

(** The deque and the index hold the same notifications: each entry of the
    index is in the deque, and each notification of the deque that has an
    identifier is the entry of the index under that identifier. *)
Definition index_within_deque (w : world) : Prop :=
  ∀ k r, _notification_for_nid (self w) !! k = Some r → r ∈ current_notifications w.

Definition deque_within_index (w : world) : Prop :=
  ∀ r k, r ∈ current_notifications w → identifier (heap w r) = Some k →
         _notification_for_nid (self w) !! k = Some r.

Definition in_step (w : world) : Prop :=
  index_within_deque w ∧ deque_within_index w.

(** No [send] is cut short: what the platform's [_send] raises is caught by
    [except Exception]. *)
Definition caught (o : op) : bool :=
  match o with
  | Send _ (Throws e) => is_Exception e
  | _ => true
  end.

(** The platform behaves well in a run when it hands out identifiers that are
    true values and pairwise distinct and cuts no [send] short, and the
    application sends no notification object a second time once it was
    delivered. *)
Definition well_behaved (ops : list op) : Prop :=
  NoDup (delivered ops) ∧ NoDup (delivered_ids ops) ∧
  Forall (λ k, ident_truthy k = true) (delivered_ids ops) ∧
  forallb caught ops = true.

(** What a run leaves alone in an object: all but the icon and the
    identifier. *)
Definition same_content (a b : Notification) : Prop :=
  title a = title b ∧ message a = message b ∧ urgency a = urgency b ∧
  buttons a = buttons b ∧ reply_field a = reply_field b ∧
  on_clicked a = on_clicked b ∧ on_dismissed a = on_dismissed b ∧
  on_replied a = on_replied b ∧ attachment a = attachment b ∧
  sound a = sound b ∧ thread a = thread b.

(** The platform raises in every call that reaches it. *)
Definition platform_fails (o : op) : bool :=
  match o with
  | Send _ (Throws _) | Clear _ (Throws _) | ClearAll (Throws _) | Closed _ => true
  | _ => false
  end.

(** The notification that [send] hands to the platform as the one to
    replace: the oldest of a full deque. *)
Definition to_replace (w : world) : option ref :=
  if decide (Some (Z.of_nat (length (current_notifications w)))
             = notification_limit (self w))
  then head (current_notifications w)
  else None.

(** ** The states that the removals leave *)

(** The state that [_clear_notification_from_cache] leaves. *)
Definition without (n : ref) (w : world) : world :=
  {| heap := heap w;
     self :=
       {| app_name := app_name (self w);
          app_icon := app_icon (self w);
          notification_limit := notification_limit (self w);
          _current_notifications :=
            deque.remove_first n (_current_notifications (self w));
          _notification_for_nid :=
            match identifier (heap w n) with
            | Some k =>
                if ident_truthy k then delete k (_notification_for_nid (self w))
                else _notification_for_nid (self w)
            | None => _notification_for_nid (self w)
            end |} |}.

(** The state that [clear_all] leaves when the platform call returns. *)
Definition emptied (w : world) : world :=
  {| heap := heap w;
     self :=
       {| app_name := app_name (self w);
          app_icon := app_icon (self w);
          notification_limit := notification_limit (self w);
          _current_notifications := [];
          _notification_for_nid := ∅ |} |}.

(** ** Invariants *)

(** Every notification in the deque has been given an identifier, and a deque
    of maximal length 0 is empty. *)
Definition tracked (w : world) : Prop :=
  (notification_limit (self w) = Some 0 → current_notifications w = []) ∧
  ∀ r, r ∈ current_notifications w → identifier (heap w r) ≠ None.

(** What holds of the deque and the index while the platform behaves well:
    each notification of the deque has an identifier and is the entry of the
    index under it; each entry of the index carries the identifier it is
    filed under; the deque holds no object twice; no two objects carry the
    same identifier; every identifier in use is a true value. *)
Definition indexed (w : world) : Prop :=
  (∀ r, r ∈ current_notifications w →
        ∃ k, identifier (heap w r) = Some k ∧
             _notification_for_nid (self w) !! k = Some r) ∧
  (∀ k r, _notification_for_nid (self w) !! k = Some r →
          identifier (heap w r) = Some k) ∧
  NoDup (current_notifications w) ∧
  (∀ r1 r2 k, identifier (heap w r1) = Some k →
              identifier (heap w r2) = Some k → r1 = r2) ∧
  (∀ r k, identifier (heap w r) = Some k → ident_truthy k = true).

(** The notifications still to be delivered carry no identifier yet, and the
    identifiers still to be handed out are not in use. *)
Definition fresh_for (w : world) (ops : list op) : Prop :=
  (∀ r, r ∈ delivered ops → identifier (heap w r) = None) ∧
  (∀ r k, identifier (heap w r) = Some k → k ∉ delivered_ids ops).

(** Each entry of the index is in the deque or among the notifications [E]. *)
Definition index_within (E : list ref) (w : world) : Prop :=
  ∀ k r, _notification_for_nid (self w) !! k = Some r →
         r ∈ current_notifications w ∨ r ∈ E.

(** ** Objects and states of the scenarios *)

Definition plain : Notification :=
  Notification__init__ "title" "message" Normal None None false None None None None false None.

(** A notification whose icon is the empty string. *)
Definition blank : Notification :=
  Notification__init__ "title" "message" Normal (Some EmptyString) None
                       false None None None None false None.

Definition objects : ref → Notification := λ _, plain.

Definition A : ref := 0%nat.
Definition B : ref := 1%nat.
Definition C : ref := 2%nat.

(** A notifier with the given limit; the limits used below are not negative,
    so this is what [DesktopNotifierBase__init__] returns. *)
Definition notifier (limit : option Z) : DesktopNotifierBase :=
  mkNotifier "Python" (Some "x.png") limit [] ∅.

Definition unavailable : exn := PlatformError "service unavailable".

(** [A] and [B] delivered under the identifiers 1 and 2. *)
Definition after_A_B (limit : option Z) : world :=
  run [Send A (Answers (IdInt 1)); Send B (Answers (IdInt 2))]
      (start objects (notifier limit)).

(** [A] and [B] delivered under the identifiers 1 and 2 by a notifier with
    limit 2, then a [send] of [C] that is cancelled in the platform's [_send]. *)
Definition after_A_B_cancelled_C : world :=
  final (send C (Throws CancelledError) (after_A_B (Some 2))).

(** The one object [A] delivered twice, under the identifiers 1 and 2. *)
Definition after_A_A : world :=
  run [Send A (Answers (IdInt 1)); Send A (Answers (IdInt 2))]
      (start objects (notifier None)).

(** [A] delivered under the identifier 1 by a notifier with limit 1, then [B]
    delivered in its place under the same identifier. *)
Definition after_A_replaced_by_B : world :=
  run [Send A (Answers (IdInt 1)); Send B (Answers (IdInt 1))]
      (start objects (notifier (Some 1))).

(** [A], [B] and [C] delivered under the identifiers 1, 2 and 3 by a notifier
    with limit 2. *)
Definition after_A_B_C : world :=
  run [Send A (Answers (IdInt 1)); Send B (Answers (IdInt 2));
       Send C (Answers (IdInt 3))]
      (start objects (notifier (Some 2))).

(** * Properties *)

(** ** Running the computations *)

Ltac run_M :=
  unfold send, clear, clear_all, _clear_notification_from_cache,
    _send, _clear, _clear_all, try_except_else,
    current_popleft, current_append, current_appendleft, current_remove,
    current_clear, for_nid_setitem, for_nid_pop, for_nid_clear, logger_warning,
    except_Exception, except_ValueError, except_KeyError,
    pass, raise, emit, gets, modify, mbind, M_bind, mret, M_ret,
    final, emitted, result, current_notifications in *;
  simpl in *.

Lemma remove_first_absent x l : x ∉ l → deque.remove_first x l = l.
Proof.
  induction l as [|y l IH]; simpl; [done|].
  intros Hx. apply not_elem_of_cons in Hx as [Hxy Hl].
  case_decide; [congruence|]. by rewrite IH.
Qed.

Lemma remove_first_subset x y l : y ∈ deque.remove_first x l → y ∈ l.
Proof.
  induction l as [|z l IH]; simpl; [done|].
  case_decide; set_solver.
Qed.

Lemma remove_first_other x y l : y ≠ x → y ∈ l → y ∈ deque.remove_first x l.
Proof.
  intros Hne. induction l as [|z l IH]; simpl; [done|].
  case_decide; set_solver.
Qed.

Lemma remove_first_NoDup x l : NoDup l → NoDup (deque.remove_first x l).
Proof.
  induction 1 as [|z l Hz Hl IH]; simpl; [constructor|].
  case_decide; [done|]. constructor; [|done].
  intros Hin. by apply Hz, (remove_first_subset x).
Qed.

Lemma remove_first_NoDup_gone x l : NoDup l → x ∉ deque.remove_first x l.
Proof.
  induction 1 as [|z l Hz Hl IH]; simpl; [set_solver|].
  case_decide; [by subst|]. set_solver.
Qed.

Lemma world_eta w : {| heap := heap w; self := self w |} = w.
Proof. by destruct w. Qed.

Lemma self_eta s :
  {| app_name := app_name s; app_icon := app_icon s;
     notification_limit := notification_limit s;
     _current_notifications := _current_notifications s;
     _notification_for_nid := _notification_for_nid s |} = s.
Proof. by destruct s. Qed.

Lemma cache_removal_spec n w :
  _clear_notification_from_cache n w = (without n w, [], Returned tt).
Proof.
  destruct w as [h s]. destruct s as [nm ic lim cur idx].
  unfold without. run_M. unfold with_self, set_current, set_for_nid, identifier. simpl.
  destruct (decide (n ∈ cur)) as [Hin|Hin]; simpl.
  - destruct (_identifier (h n)) as [k|]; simpl; [|done].
    destruct (ident_truthy k); simpl; [|done].
    destruct (idx !! k) eqn:Hk; simpl; [done|].
    by rewrite delete_id.
  - rewrite (remove_first_absent _ _ Hin).
    destruct (_identifier (h n)) as [k|]; simpl; [|done].
    destruct (ident_truthy k); simpl; [|done].
    destruct (idx !! k) eqn:Hk; simpl; [done|].
    by rewrite delete_id.
Qed.

(** What the constructor returns. *)
Lemma init_returns name icon limit s :
  DesktopNotifierBase__init__ name icon limit = Returned s →
  s = mkNotifier name icon limit [] ∅ ∧ ∀ N, limit = Some N → 0 ≤ N.
Proof.
  unfold DesktopNotifierBase__init__. destruct limit as [m|].
  - case_decide; [done|]. case_decide; [done|]. intros [= <-].
    split; [done|]. intros N [= <-]. lia.
  - intros [= <-]. split; [done|]. by intros N.
Qed.

(** ** What [send] does to the registry *)

(** A failed delivery that [except Exception] catches leaves the notifier as
    it was; only the icon of the notification may have been filled in. *)
Lemma send_throws_self n e w :
  is_Exception e = true → self (final (send n (Throws e) w)) = self w.
Proof.
  intros He. destruct w as [h s]. destruct s as [nm ic lim cur idx].
  run_M. unfold with_self, with_object, set_current, deque.appendleft. simpl.
  destruct (negb (opt_str_truthy (icon (h n)))); simpl.
  - case_decide as Hlim; simpl; [|by rewrite He].
    destruct cur as [|x cur]; simpl; [done|]. subst lim. rewrite He. simpl.
    rewrite !decide_False by (simpl length; lia). done.
  - case_decide as Hlim; simpl; [|by rewrite He].
    destruct cur as [|x cur]; simpl; [done|]. subst lim. rewrite He. simpl.
    rewrite !decide_False by (simpl length; lia). done.
Qed.

(** Whatever the platform raises, [send] leaves the index and the settings
    alone, and the deque as it was or without its oldest notification. *)
Lemma send_throws_registry n e w :
  _notification_for_nid (self (final (send n (Throws e) w)))
  = _notification_for_nid (self w) ∧
  notification_limit (self (final (send n (Throws e) w)))
  = notification_limit (self w) ∧
  (current_notifications (final (send n (Throws e) w)) = current_notifications w ∨
   current_notifications (final (send n (Throws e) w))
   = tail (current_notifications w)).
Proof.
  destruct (is_Exception e) eqn:He.
  { unfold current_notifications. rewrite send_throws_self by done. auto. }
  destruct w as [h s]. destruct s as [nm ic lim cur idx].
  run_M. unfold with_self, with_object, set_current. simpl.
  destruct (negb (opt_str_truthy (icon (h n)))); simpl;
    (case_decide as Hlim; simpl; [destruct cur as [|x cur]; simpl|]);
    rewrite ?He; simpl; auto.
Qed.

(** An exception that [except Exception] lets through leaves [send] right
    after the call of the platform: the caller gets it, nothing is logged,
    and the notification taken out of a full deque is not put back. *)
Lemma send_cut_short n e w :
  is_Exception e = false →
  ¬ (notification_limit (self w) = Some 0 ∧ current_notifications w = []) →
  result (send n (Throws e) w) = Raised e ∧
  (∃ st, emitted (send n (Throws e) w) = [CallSend n st (to_replace w)]) ∧
  current_notifications (final (send n (Throws e) w))
  = if decide (Some (Z.of_nat (length (current_notifications w)))
               = notification_limit (self w))
    then tail (current_notifications w)
    else current_notifications w.
Proof.
  intros He Hzero. destruct w as [h s]. destruct s as [nm ic lim cur idx].
  unfold to_replace. run_M. unfold with_self, with_object, set_current. simpl.
  destruct (negb (opt_str_truthy (icon (h n)))); simpl;
    (case_decide as Hlim; simpl; [destruct cur as [|x cur]; simpl|]);
    rewrite ?He; simpl; try (exfalso; apply Hzero; by subst lim); eauto.
Qed.

Lemma send_throws_identifier n e w r :
  identifier (heap (final (send n (Throws e) w)) r) = identifier (heap w r).
Proof.
  destruct w as [h s]. destruct s as [nm ic lim cur idx].
  run_M. unfold with_self, with_object, set_current, identifier. simpl.
  destruct (negb (opt_str_truthy (icon (h n)))); simpl;
    (case_decide as Hlim; simpl; [destruct cur as [|x cur]; simpl|]);
    destruct (is_Exception e); simpl; try done; by case_decide.
Qed.

(** With limit 0 the deque is empty and [popleft] raises before the platform
    is asked. *)
Lemma send_limit_zero n p w :
  notification_limit (self w) = Some 0 →
  current_notifications w = [] →
  result (send n p w) = Raised IndexError ∧
  emitted (send n p w) = [] ∧
  self (final (send n p w)) = self w ∧
  ∀ r, identifier (heap (final (send n p w)) r) = identifier (heap w r).
Proof.
  destruct w as [h s]. destruct s as [nm ic lim cur idx]. simpl.
  intros -> Hcur. run_M. subst cur.
  unfold with_self, with_object, set_current, identifier. simpl.
  destruct (negb (opt_str_truthy (icon (h n)))); simpl; repeat split; try done.
  intros r. by case_decide.
Qed.

(** A delivered notification is appended, after the oldest one has made room
    if the deque was full, and it is entered in the index. *)
Lemma send_answers_spec n k w :
  notification_limit (self w) ≠ Some 0 →
  let w' := final (send n (Answers k) w) in
  result (send n (Answers k) w) = Returned tt ∧
  current_notifications w' =
    (if decide (Some (Z.of_nat (length (current_notifications w)))
                = notification_limit (self w))
     then tail (current_notifications w) else current_notifications w) ++ [n] ∧
  _notification_for_nid (self w') = <[k:=n]> (_notification_for_nid (self w)) ∧
  notification_limit (self w') = notification_limit (self w) ∧
  app_icon (self w') = app_icon (self w) ∧
  ∀ r, identifier (heap w' r) =
       if decide (r = n) then Some k else identifier (heap w r).
Proof.
  destruct w as [h s]. destruct s as [nm ic lim cur idx]. simpl.
  intros Hlim. run_M.
  unfold with_self, with_object, set_current, set_for_nid, deque.append, identifier.
  simpl.
  destruct (negb (opt_str_truthy (icon (h n)))); simpl.
  - case_decide as Hfull; simpl.
    + subst lim. destruct cur as [|x cur]; [done|]. simpl.
      repeat (rewrite decide_False by (simpl length; lia)).
      repeat split; try done. intros r. repeat case_decide; done.
    + destruct lim as [m|]; simpl.
      * repeat (rewrite decide_False by congruence).
        repeat split; try done. intros r. repeat case_decide; done.
      * repeat split; try done. intros r. repeat case_decide; done.
  - case_decide as Hfull; simpl.
    + subst lim. destruct cur as [|x cur]; [done|]. simpl.
      repeat (rewrite decide_False by (simpl length; lia)).
      repeat split; try done. intros r. repeat case_decide; done.
    + destruct lim as [m|]; simpl.
      * repeat (rewrite decide_False by congruence).
        repeat split; try done. intros r. repeat case_decide; done.
      * repeat split; try done. intros r. repeat case_decide; done.
Qed.

(** ** What one call changes *)

(** [send] changes no setting of the notifier. *)
Lemma send_settings n p w :
  app_name (self (final (send n p w))) = app_name (self w) ∧
  app_icon (self (final (send n p w))) = app_icon (self w) ∧
  notification_limit (self (final (send n p w))) = notification_limit (self w).
Proof.
  destruct w as [h s]. destruct s as [nm ic lim cur idx].
  run_M. unfold with_self, with_object, set_current, set_for_nid. simpl.
  destruct (negb (opt_str_truthy (icon (h n)))); simpl;
    (case_decide as Hfull; simpl; [destruct cur as [|x cur]; simpl|]);
    try done; destruct p as [k|e]; simpl; try done;
    destruct (is_Exception e); done.
Qed.

(** [send] touches one object, and there only the icon and the identifier. *)
Lemma send_heap n p w r :
  (r ≠ n → heap (final (send n p w)) r = heap w r) ∧
  same_content (heap (final (send n p w)) r) (heap w r).
Proof.
  destruct w as [h s]. destruct s as [nm ic lim cur idx].
  run_M. unfold with_self, with_object, set_current, set_for_nid, same_content. simpl.
  destruct (negb (opt_str_truthy (icon (h n)))); simpl;
    (case_decide as Hfull; simpl; [destruct cur as [|x cur]; simpl|]);
    (destruct p as [k|e]; simpl; [|destruct (is_Exception e); simpl]);
    destruct (decide (r = n)) as [->|Hr]; simpl; done.
Qed.

(** The icon of the notification after [send]: an icon that is a true value
    stays, any other gives way to the default icon of the notifier. *)
Lemma send_icon n p w :
  icon (heap (final (send n p w)) n)
  = if opt_str_truthy (icon (heap w n)) then icon (heap w n) else app_icon (self w).
Proof.
  destruct w as [h s]. destruct s as [nm ic lim cur idx].
  run_M. unfold with_self, with_object, set_current, set_for_nid. simpl.
  destruct (opt_str_truthy (icon (h n))); simpl;
    (case_decide as Hfull; simpl; [destruct cur as [|x cur]; simpl|]);
    (destruct p as [k|e]; simpl; [|destruct (is_Exception e); simpl]);
    rewrite ?decide_True by done; done.
Qed.

(** The identifier changes in a delivery only, and then in the notification
    delivered. *)
Lemma send_identifier n p w r :
  identifier (heap (final (send n p w)) r) = identifier (heap w r) ∨
  r = n ∧ ∃ k, p = Answers k ∧ identifier (heap (final (send n p w)) r) = Some k.
Proof.
  destruct p as [k|e]; [|left; apply send_throws_identifier].
  destruct w as [h s]. destruct s as [nm ic lim cur idx].
  run_M. unfold with_self, with_object, set_current, set_for_nid, identifier. simpl.
  destruct (negb (opt_str_truthy (icon (h n)))); simpl;
    (case_decide as Hfull; simpl; [destruct cur as [|x cur]; simpl|]);
    destruct (decide (r = n)) as [->|Hr]; simpl; eauto.
Qed.

(** The calls that [send] makes: none when [popleft] raises, which it does for
    limit 0 only; else one call of the platform's [_send], for the
    notification as it is after the call but for the identifier, and after it
    a warning when the platform raised what [except Exception] catches. *)
Lemma send_events n p w :
  emitted (send n p w) = [] ∧ result (send n p w) = Raised IndexError ∧
  notification_limit (self w) = Some 0 ∧ current_notifications w = [] ∨
  ¬ (notification_limit (self w) = Some 0 ∧ current_notifications w = []) ∧
  ∃ st, emitted (send n p w)
        = CallSend n st (to_replace w)
            :: match p with
               | Answers _ => []
               | Throws e =>
                   if is_Exception e then [LogWarning "Notification failed"] else []
               end ∧
        identifier st = identifier (heap w n) ∧
        same_content st (heap w n) ∧
        icon st = icon (heap (final (send n p w)) n).
Proof.
  destruct w as [h s]. destruct s as [nm ic lim cur idx].
  unfold to_replace. run_M.
  unfold with_self, with_object, set_current, same_content, identifier. simpl.
  destruct (negb (opt_str_truthy (icon (h n)))); simpl;
    (case_decide as Hfull; simpl; [destruct cur as [|x cur]; simpl|]);
    try (left; subst lim; done);
    (right; split;
     [ intros [Hl Hc]; simpl in *; subst; done
     | (destruct p as [k|e]; simpl; [|destruct (is_Exception e); simpl]);
       rewrite ?decide_True by done; eexists; split_and!; done ]).
Qed.

(** ** What [clear] and [clear_all] do *)

Lemma clear_spec n p w :
  clear n p w =
  if opt_ident_truthy (identifier (heap w n))
  then match p with
       | Answers _ => (without n w, [CallClear n], Returned tt)
       | Throws e => (w, [CallClear n], Raised e)
       end
  else (without n w, [], Returned tt).
Proof.
  unfold clear at 1. unfold mbind, M_bind, gets, _clear, emit, raise, pass, mret, M_ret.
  destruct (opt_ident_truthy (identifier (heap w n))).
  - destruct p as [[]|e]; simpl; [|done]. by rewrite cache_removal_spec.
  - simpl. by rewrite cache_removal_spec.
Qed.

Lemma clear_all_spec p w :
  clear_all p w =
  match p with
  | Answers _ => (emptied w, [CallClearAll], Returned tt)
  | Throws e => (w, [CallClearAll], Raised e)
  end.
Proof. destruct p as [[]|e]; reflexivity. Qed.

Lemma clear_final n p w :
  final (clear n p w) =
  if opt_ident_truthy (identifier (heap w n))
  then match p with Answers _ => without n w | Throws _ => w end
  else without n w.
Proof.
  rewrite clear_spec. destruct (opt_ident_truthy _); [|done].
  by destruct p as [[]|e].
Qed.

Lemma clear_result n p w :
  result (clear n p w) =
  if opt_ident_truthy (identifier (heap w n))
  then match p with Answers _ => Returned tt | Throws e => Raised e end
  else Returned tt.
Proof.
  rewrite clear_spec. destruct (opt_ident_truthy _); [|done].
  by destruct p as [[]|e].
Qed.

Lemma without_heap n w : heap (without n w) = heap w.
Proof. reflexivity. Qed.

Lemma occurrences_remove_first x l :
  (occurrences x l ≤ 1)%nat → x ∉ deque.remove_first x l.
Proof.
  unfold occurrences. induction l as [|y l IH]; simpl; [set_solver|].
  case_decide as Hy.
  - subst y. rewrite filter_cons_True by done. simpl. intros Hlen.
    destruct (filter (λ y, y = x) l) eqn:Hf; [|simpl in Hlen; lia].
    by apply (filter_nil_not_elem_of _ _ x) in Hf.
  - rewrite filter_cons_False by done. intros Hlen.
    apply not_elem_of_cons. split; [congruence | by apply IH].
Qed.

Lemma without_twice n w :
  (occurrences n (current_notifications w) ≤ 1)%nat →
  without n (without n w) = without n w.
Proof.
  intros Hocc. unfold without at 1 3. rewrite without_heap. simpl.
  f_equal. f_equal.
  - apply remove_first_absent. by apply occurrences_remove_first.
  - destruct (identifier (heap w n)) as [k|]; [|done].
    destruct (ident_truthy k); [|done]. apply delete_delete_eq.
Qed.

(** ** Failure of the platform's [_send] *)

(** C2, as the code has it. If the platform's [_send] raises an exception
    that derives from [Exception], [send] leaves [current_notifications] as it
    was before the call, in contents and in order, and the index likewise.
    When the deque was full, its oldest entry [x] was taken out and handed to
    the platform as the notification to replace, and it is back at the front
    afterwards. *)
Theorem send_failure_keeps_current_notifications w n e :
  is_Exception e = true →
  let w' := final (send n (Throws e) w) in
  current_notifications w' = current_notifications w ∧
  _notification_for_nid (self w') = _notification_for_nid (self w) ∧
  ∀ x l, current_notifications w = x :: l →
         notification_limit (self w) = Some (Z.of_nat (length (x :: l))) →
         (∃ st, emitted (send n (Throws e) w)
                = [CallSend n st (Some x); LogWarning "Notification failed"]) ∧
         current_notifications w' = x :: l.
Proof.
  intros He. simpl. unfold current_notifications. rewrite send_throws_self by done.
  split; [done|]. split; [done|]. intros x l Hcur Hlim. split; [|done].
  destruct w as [h s]. destruct s as [nm ic lim cur idx]. simpl in *. subst.
  run_M. destruct (negb (opt_str_truthy (icon (h n)))); simpl;
    rewrite decide_True by done; simpl; rewrite He; simpl; eauto.
Qed.

Lemma send_failure_keeps_current_notifications_witness :
  current_notifications (final (send C (Throws unavailable) (after_A_B (Some 2))))
  = [A; B] ∧
  current_notifications (after_A_B (Some 2)) = [A; B].
Proof.
  destruct (send_failure_keeps_current_notifications
              (after_A_B (Some 2)) C unavailable) as (Hcur & _ & Hfront);
    [reflexivity|].
  destruct (Hfront A [B]) as [_ Hback]; [reflexivity | reflexivity |].
  split; [exact Hback | reflexivity].
Defined.

(** C2, refuted as stated: with limit 2 and [A], [B] in the deque, the
    platform's [_send] raises [CancelledError] for [C]. The clause
    [except Exception] does not catch it: [A], taken out to make room, is not
    put back, and the deque is [B]. *)
Lemma cancelled_send_loses_oldest :
  current_notifications (after_A_B (Some 2)) = [A; B] ∧
  result (send C (Throws CancelledError) (after_A_B (Some 2))) = Raised CancelledError ∧
  current_notifications after_A_B_cancelled_C = [B] ∧
  current_notifications after_A_B_cancelled_C
  ≠ current_notifications (after_A_B (Some 2)).
Proof. split_and!; try reflexivity. vm_compute. discriminate. Qed.

(** C4, as the code has it. When the platform's [_send] is called and raises
    an exception that derives from [Exception], [send] returns normally; all
    that follows the call is one warning to the logger. An exception that does
    not derive from [Exception] reaches the caller of [send], and nothing is
    logged. *)
Theorem send_failure_returns w n e st repl :
  CallSend n st repl ∈ emitted (send n (Throws e) w) →
  (is_Exception e = true →
   result (send n (Throws e) w) = Returned tt ∧
   emitted (send n (Throws e) w)
   = [CallSend n st repl; LogWarning "Notification failed"]) ∧
  (is_Exception e = false →
   result (send n (Throws e) w) = Raised e ∧
   emitted (send n (Throws e) w) = [CallSend n st repl]).
Proof.
  destruct w as [h s]. destruct s as [nm ic lim cur idx].
  run_M. unfold with_self, with_object, set_current. simpl.
  destruct (negb (opt_str_truthy (icon (h n)))); simpl;
    (case_decide as Hfull; simpl; [destruct cur as [|x cur]; simpl|]);
    destruct (is_Exception e); simpl;
    intros Hin;
    try (by apply elem_of_nil in Hin);
    apply elem_of_cons in Hin as [Heq|Hin];
    try (apply elem_of_cons in Hin as [Heq|Hin]; [discriminate|]);
    try (by apply elem_of_nil in Hin);
    simplify_eq; split; intros; done.
Qed.

Lemma send_failure_returns_witness :
  result (send C (Throws unavailable) (after_A_B (Some 2))) = Returned tt.
Proof.
  refine (proj1 (proj1 (send_failure_returns (after_A_B (Some 2)) C unavailable
                   (set_icon (Some "x.png") plain) (Some A) _) _)).
  - vm_compute. apply list_elem_of_here.
  - reflexivity.
Defined.

(** C4, refuted as stated: the platform's [_send] is called and raises
    [CancelledError]; [send] does not return normally, it raises. *)
Lemma cancelled_send_raises :
  CallSend C (set_icon (Some "x.png") plain) (Some A)
    ∈ emitted (send C (Throws CancelledError) (after_A_B (Some 2))) ∧
  result (send C (Throws CancelledError) (after_A_B (Some 2))) ≠ Returned tt.
Proof. split; [vm_compute; apply list_elem_of_here|]. vm_compute. discriminate. Qed.

(** ** [clear_all] *)

(** C5, as the code has it. [clear_all] empties the deque and the index when
    the platform's [_clear_all] returns. When that call raises, the exception
    reaches the caller and the deque and the index stay as they were. *)
Theorem clear_all_follows_platform w p :
  match p with
  | Answers _ =>
      result (clear_all p w) = Returned tt ∧
      current_notifications (final (clear_all p w)) = [] ∧
      _notification_for_nid (self (final (clear_all p w))) = ∅
  | Throws e =>
      result (clear_all p w) = Raised e ∧
      final (clear_all p w) = w
  end.
Proof. rewrite clear_all_spec. by destruct p as [[]|e]. Qed.

(** C5, refuted as stated: with [A] delivered and a platform whose
    [_clear_all] raises, [clear_all] leaves [A] in the deque and in the
    index. *)
Lemma clear_all_failure_keeps_registry :
  let w' := final (clear_all (Throws unavailable)
                     (run [Send A (Answers (IdInt 1))] (start objects (notifier None)))) in
  ¬ (current_notifications w' = [] ∧ _notification_for_nid (self w') = ∅).
Proof. simpl. intros [Hcur _]. vm_compute in Hcur. discriminate. Qed.

(** ** Clearing twice *)

(** C6, as the code has it. For a notification that is in the deque at most
    once, a second [clear] after a first one that returned changes neither the
    deque nor the index, whatever the platform answers. After a [clear_all]
    that returned, the deque and the index are empty, and they are empty after
    a second [clear_all]. [_clear_notification_from_cache] never raises; it
    leaves the deque alone when the notification is not in it and the index
    alone when the identifier is not in it or is [None]. *)
Theorem clear_twice_is_idle w n p1 p2 :
  ((occurrences n (current_notifications w) ≤ 1)%nat →
   result (clear n p1 w) = Returned tt →
   self (final (clear n p2 (final (clear n p1 w)))) = self (final (clear n p1 w))) ∧
  (result (clear_all p1 w) = Returned tt →
   current_notifications (final (clear_all p1 w)) = [] ∧
   _notification_for_nid (self (final (clear_all p1 w))) = ∅ ∧
   current_notifications (final (clear_all p2 (final (clear_all p1 w)))) = [] ∧
   _notification_for_nid (self (final (clear_all p2 (final (clear_all p1 w))))) = ∅) ∧
  result (_clear_notification_from_cache n w) = Returned tt ∧
  (n ∉ current_notifications w →
   current_notifications (final (_clear_notification_from_cache n w))
   = current_notifications w) ∧
  (∀ k, identifier (heap w n) = Some k →
        _notification_for_nid (self w) !! k = None →
        _notification_for_nid (self (final (_clear_notification_from_cache n w)))
        = _notification_for_nid (self w)) ∧
  (identifier (heap w n) = None →
   _notification_for_nid (self (final (_clear_notification_from_cache n w)))
   = _notification_for_nid (self w)).
Proof.
  repeat split.
  - intros Hocc. rewrite clear_result, (clear_final n p1 w).
    destruct (opt_ident_truthy (identifier (heap w n))) eqn:Hid.
    + destruct p1 as [[]|e1]; [intros _|done].
      rewrite clear_final, without_heap, Hid.
      destruct p2 as [[]|e2]; [|done]. by rewrite without_twice.
    + intros _. rewrite clear_final, without_heap, Hid. by rewrite without_twice.
  - rewrite clear_all_spec in *. by destruct p1 as [[]|e1].
  - rewrite clear_all_spec in *. by destruct p1 as [[]|e1].
  - rewrite !clear_all_spec in *. destruct p1 as [[]|e1]; [|done].
    by destruct p2 as [[]|e2].
  - rewrite !clear_all_spec in *. destruct p1 as [[]|e1]; [|done].
    by destruct p2 as [[]|e2].
  - by rewrite cache_removal_spec.
  - intros Hn. rewrite cache_removal_spec. unfold final, current_notifications.
    simpl. by apply remove_first_absent.
  - intros k Hk Hnone. rewrite cache_removal_spec. unfold final. simpl.
    rewrite Hk. destruct (ident_truthy k); [|done]. by apply delete_id.
  - intros Hk. rewrite cache_removal_spec. unfold final. simpl. by rewrite Hk.
Qed.

Lemma clear_twice_is_idle_witness :
  self (final (clear A (Answers tt) (final (clear A (Answers tt) (after_A_B None)))))
  = self (final (clear A (Answers tt) (after_A_B None))).
Proof.
  refine (proj1 (clear_twice_is_idle (after_A_B None) A (Answers tt) (Answers tt)) _ _).
  - vm_compute. lia.
  - reflexivity.
Defined.

(** C6, refuted as stated: [A] was delivered twice and is in the deque twice.
    The first [clear] takes out one occurrence and the second [clear], far
    from idle, takes out the other. *)
Lemma clear_twice_of_twice_sent :
  let w1 := final (clear A (Answers tt) after_A_A) in
  let w2 := final (clear A (Answers tt) w1) in
  result (clear A (Answers tt) after_A_A) = Returned tt ∧
  result (clear A (Answers tt) w1) = Returned tt ∧
  current_notifications w1 = [A] ∧
  current_notifications w2 = [] ∧
  current_notifications w2 ≠ current_notifications w1.
Proof. simpl. repeat split; try reflexivity. vm_compute. discriminate. Qed.

(** ** Reachable states *)

Lemma elem_of_tail (x : ref) l : x ∈ tail l → x ∈ l.
Proof. destruct l; simpl; [done|]. apply list_elem_of_further. Qed.

Lemma elem_of_room (x n : ref) (P : Prop) (d : Decision P) l :
  x ∈ (if d then tail l else l) ++ [n] → x ∈ l ∨ x = n.
Proof.
  intros [Hx|Hx]%elem_of_app.
  - left. destruct d; [by apply elem_of_tail|done].
  - right. by apply list_elem_of_singleton in Hx.
Qed.

Lemma exec_tracked o w : tracked w → tracked (final (exec o w)).
Proof.
  intros [Hzero Hid]. destruct o as [n [k|e]|n p| p |n]; simpl.
  - destruct (decide (notification_limit (self w) = Some 0)) as [Hlim|Hlim].
    + destruct (send_limit_zero n (Answers k) w Hlim (Hzero Hlim))
        as (_ & _ & Hself & Hident).
      unfold tracked, current_notifications in *. rewrite Hself.
      split; [done|]. intros r Hr. rewrite Hident. by apply Hid.
    + destruct (send_answers_spec n k w Hlim) as (_ & Hcur & _ & Hl & _ & Hident).
      split; [by rewrite Hl|]. intros r. rewrite Hcur, Hident.
      intros [Hr| ->]%elem_of_room; [|by rewrite decide_True].
      destruct (decide (r = n)); [done|]. by apply Hid.
  - destruct (send_throws_registry n e w) as (_ & Hl & Hcur).
    split.
    + rewrite Hl. intros Hlim. destruct Hcur as [-> | ->]; by rewrite (Hzero Hlim).
    + intros r Hr. rewrite send_throws_identifier. apply Hid.
      destruct Hcur as [Hcur|Hcur]; rewrite Hcur in Hr; [done|by apply elem_of_tail].
  - rewrite clear_spec.
    assert (tracked (without n w)) as Hw.
    { split; unfold current_notifications in *; simpl.
      - intros Hlim. by rewrite (Hzero Hlim).
      - intros r Hr. apply Hid. by eapply remove_first_subset. }
    destruct (opt_ident_truthy _); [|done]. by destruct p as [[]|e].
  - rewrite clear_all_spec. destruct p as [[]|e]; [|done].
    split; [done|]. intros r Hr. by apply elem_of_nil in Hr.
  - rewrite cache_removal_spec.
    split; unfold current_notifications in *; simpl.
    + intros Hlim. by rewrite (Hzero Hlim).
    + intros r Hr. apply Hid. by eapply remove_first_subset.
Qed.

Lemma exec_limit o w :
  tracked w →
  notification_limit (self (final (exec o w))) = notification_limit (self w).
Proof.
  intros [Hzero _]. destruct o as [n [k|e]|n p| p |n]; simpl.
  - destruct (decide (notification_limit (self w) = Some 0)) as [Hlim|Hlim].
    + destruct (send_limit_zero n (Answers k) w Hlim (Hzero Hlim))
        as (_ & _ & Hself & _). by rewrite Hself.
    + by destruct (send_answers_spec n k w Hlim) as (_ & _ & _ & Hl & _).
  - by destruct (send_throws_registry n e w) as (_ & Hl & _).
  - rewrite clear_spec. destruct (opt_ident_truthy _); [|done].
    by destruct p as [[]|e].
  - rewrite clear_all_spec. by destruct p as [[]|e].
  - by rewrite cache_removal_spec.
Qed.

Lemma run_tracked ops w :
  tracked w →
  tracked (run ops w) ∧
  notification_limit (self (run ops w)) = notification_limit (self w).
Proof.
  revert w. induction ops as [|o ops IH]; intros w Hw; simpl; [done|].
  destruct (IH _ (exec_tracked o w Hw)) as [Ht Hl].
  split; [done|]. rewrite Hl. by apply exec_limit.
Qed.

Lemma init_tracked h name icon limit s :
  DesktopNotifierBase__init__ name icon limit = Returned s →
  tracked (start h s) ∧ notification_limit s = limit.
Proof.
  intros [-> _]%init_returns.
  split; [|done]. split; [done|]. intros r Hr. by apply elem_of_nil in Hr.
Qed.

(** ** Clearing what was never sent *)

(** C7. In a state that the notifier reaches from its construction, [clear]
    of a notification whose identifier is [None] does not call the platform's
    [_clear], changes nothing, and returns normally. *)
Theorem clear_unsent_is_idle h name icon limit s ops n p :
  DesktopNotifierBase__init__ name icon limit = Returned s →
  identifier (heap (run ops (start h s)) n) = None →
  emitted (clear n p (run ops (start h s))) = [] ∧
  result (clear n p (run ops (start h s))) = Returned tt ∧
  final (clear n p (run ops (start h s))) = run ops (start h s).
Proof.
  intros Hs Hid.
  destruct (init_tracked h _ _ _ _ Hs) as [Ht _].
  destruct (run_tracked ops _ Ht) as [[_ Hids] _].
  set (w := run ops (start h s)) in *.
  rewrite clear_spec, Hid. simpl. unfold final. simpl.
  repeat split. unfold without. rewrite Hid.
  rewrite remove_first_absent.
  - rewrite self_eta. apply world_eta.
  - intros Hin. by apply (Hids n Hin).
Qed.

Lemma clear_unsent_is_idle_witness :
  emitted (clear C (Answers tt) (run [Send A (Answers (IdInt 1))]
                                     (start objects (notifier (Some 2))))) = [].
Proof.
  refine (proj1 (clear_unsent_is_idle objects "Python" (Some "x.png") (Some 2)
                   (notifier (Some 2)) [Send A (Answers (IdInt 1))] C (Answers tt) _ _)).
  - reflexivity.
  - reflexivity.
Defined.

(** ** Limit 0 *)

(** C9. A notifier constructed with [notification_limit = 0] has an empty
    deque in every state it reaches, so the test [len == limit] holds; each
    [send] raises [IndexError] from [popleft], without a call of the
    platform's [_send] and without a change to the deque. *)
Theorem send_with_limit_zero_raises h name icon s ops n p :
  DesktopNotifierBase__init__ name icon (Some 0) = Returned s →
  current_notifications (run ops (start h s)) = [] ∧
  notification_limit (self (run ops (start h s))) = Some 0 ∧
  result (send n p (run ops (start h s))) = Raised IndexError ∧
  emitted (send n p (run ops (start h s))) = [] ∧
  current_notifications (final (send n p (run ops (start h s)))) = [].
Proof.
  intros Hs.
  destruct (init_tracked h _ _ _ _ Hs) as [Ht Hlim0].
  destruct (run_tracked ops _ Ht) as [[Hzero _] Hlim].
  simpl in Hlim. rewrite Hlim0 in Hlim.
  destruct (send_limit_zero n p _ Hlim (Hzero Hlim)) as (Hr & He & Hself & _).
  repeat split; try done; [by apply Hzero|].
  unfold current_notifications. rewrite Hself. by apply Hzero.
Qed.

Lemma send_with_limit_zero_raises_witness :
  result (send A (Answers (IdInt 1)) (run [] (start objects (notifier (Some 0)))))
  = Raised IndexError.
Proof.
  refine (proj1 (proj2 (proj2 (send_with_limit_zero_raises objects "Python"
            (Some "x.png") (notifier (Some 0)) [] A (Answers (IdInt 1)) _)))).
  reflexivity.
Defined.

(** ** The default icon *)

(** C8, as the code has it. [send] tests the truth value of the icon: an icon
    that is [None] or the empty string is replaced by the notifier's
    [app_icon], and any other icon stays. [send] then calls the platform's
    [_send], once, for the notification with that icon; the one exception is a
    notifier with limit 0, where [popleft] raises [IndexError] before the
    call. *)
Theorem send_fills_icon w n p :
  (icon (heap w n) = None ∨ icon (heap w n) = Some EmptyString →
   icon (heap (final (send n p w)) n) = app_icon (self w) ∧
   if decide (notification_limit (self w) = Some 0 ∧ current_notifications w = [])
   then icon_sent w n p = [] ∧ result (send n p w) = Raised IndexError
   else icon_sent w n p = [app_icon (self w)] ∧
        ∃ st repl, CallSend n st repl ∈ emitted (send n p w) ∧
                   icon st = app_icon (self w)) ∧
  (∀ c s, icon (heap w n) = Some (String c s) →
   icon (heap (final (send n p w)) n) = Some (String c s) ∧
   if decide (notification_limit (self w) = Some 0 ∧ current_notifications w = [])
   then icon_sent w n p = [] ∧ result (send n p w) = Raised IndexError
   else icon_sent w n p = [Some (String c s)] ∧
        ∃ st repl, CallSend n st repl ∈ emitted (send n p w) ∧
                   icon st = Some (String c s)).
Proof.
  assert (∀ chosen, icon (heap (final (send n p w)) n) = chosen →
    if decide (notification_limit (self w) = Some 0 ∧ current_notifications w = [])
    then icon_sent w n p = [] ∧ result (send n p w) = Raised IndexError
    else icon_sent w n p = [chosen] ∧
         ∃ st repl, CallSend n st repl ∈ emitted (send n p w) ∧ icon st = chosen)
    as Hcall.
  { intros chosen Hchosen. unfold icon_sent.
    destruct (send_events n p w)
      as [(Hnil & Hres & Hlim & Hcur)|(Hnz & st & Hev & _ & _ & Hicon)].
    - rewrite decide_True by done. by rewrite Hnil.
    - rewrite decide_False by done. rewrite Hev. simpl. split.
      + rewrite Hicon, Hchosen.
        destruct p as [k|e]; simpl; [done|]. by destruct (is_Exception e).
      + exists st, (to_replace w). split; [apply list_elem_of_here|congruence]. }
  pose proof (send_icon n p w) as Hicon. split.
  - intros Hunset.
    assert (opt_str_truthy (icon (heap w n)) = false) as Hfalse
      by (destruct Hunset as [-> | ->]; done).
    rewrite Hfalse in Hicon. split; [done|]. by apply Hcall.
  - intros c s Hset. rewrite Hset in Hicon. simpl in Hicon.
    split; [done|]. by apply Hcall.
Qed.

Lemma send_fills_icon_witness :
  icon_sent (start objects (notifier None)) A (Answers (IdInt 1)) = [Some "x.png"].
Proof.
  destruct (send_fills_icon (start objects (notifier None)) A (Answers (IdInt 1)))
    as [Hunset _].
  destruct (Hunset (or_introl eq_refl)) as [_ Hcall].
  rewrite decide_False in Hcall by (intros [Hlim _]; discriminate Hlim).
  exact (proj1 Hcall).
Defined.

(** C8, refuted as stated: the icon of the notification is set, to the empty
    string, and [send] does not keep it: the notification goes out with the
    notifier's [app_icon]. And a notifier with limit 0 passes nothing on: for a
    notification without icon the platform is not called. *)
Lemma send_replaces_empty_icon :
  let w := start (λ _, blank) (notifier None) in
  icon (heap w A) = Some EmptyString ∧
  icon (heap (final (send A (Answers (IdInt 1)) w)) A) ≠ icon (heap w A) ∧
  icon_sent w A (Answers (IdInt 1)) = [Some "x.png"] ∧
  icon_sent (start objects (notifier (Some 0))) A (Answers (IdInt 1)) = [].
Proof.
  simpl. split; [reflexivity|]. split; [|split; reflexivity].
  vm_compute. discriminate.
Qed.

(** ** Identifiers that are false *)

Lemma without_lookup_untrue m k w :
  ident_truthy k = false →
  _notification_for_nid (self (without m w)) !! k = _notification_for_nid (self w) !! k.
Proof.
  intros Hk. unfold without. simpl.
  destruct (identifier (heap w m)) as [k'|]; [|done].
  destruct (ident_truthy k') eqn:Hk'; [|done].
  apply lookup_delete_ne. congruence.
Qed.

Lemma removals_spare_untrue_identifier n k ops w :
  ident_truthy k = false →
  identifier (heap w n) = Some k →
  forallb is_removal ops = true →
  _notification_for_nid (self (run ops w)) !! k = _notification_for_nid (self w) !! k ∧
  CallClear n ∉ trace ops w.
Proof.
  intros Hk. revert w. induction ops as [|o ops IH]; intros w Hn Hops; simpl.
  { split; [done|]. by intros ?%elem_of_nil. }
  simpl in Hops. apply andb_prop in Hops as [Ho Hops].
  destruct o as [m p|m p|p|m]; try discriminate; simpl.
  - rewrite clear_spec.
    destruct (opt_ident_truthy (identifier (heap w m))) eqn:Hm.
    + assert (m ≠ n) as Hmn.
      { intros ->. rewrite Hn in Hm. simpl in Hm. congruence. }
      destruct p as [[]|e]; unfold final, emitted; simpl.
      * destruct (IH (without m w)) as [Hidx Htr]; [done..|].
        rewrite Hidx. split; [by apply without_lookup_untrue|].
        apply not_elem_of_cons. split; [congruence|done].
      * destruct (IH w) as [Hidx Htr]; [done..|].
        split; [done|]. apply not_elem_of_cons. split; [congruence|done].
    + unfold final, emitted; simpl.
      destruct (IH (without m w)) as [Hidx Htr]; [done..|].
      rewrite Hidx. split; [by apply without_lookup_untrue|done].
  - rewrite cache_removal_spec. unfold final, emitted; simpl.
    destruct (IH (without m w)) as [Hidx Htr]; [done..|].
    rewrite Hidx. split; [by apply without_lookup_untrue|done].
Qed.

(** C10. Let the identifier [k] be the integer 0 or the empty string. For a
    notification [n] that carries [k], [clear] does not call the platform's
    [_clear], and neither [clear] nor [_clear_notification_from_cache] removes
    an entry from the index. After [send] has delivered [n] under [k], the
    index maps [k] to [n], and no sequence of calls of [clear] and
    [_clear_notification_from_cache], for whichever notifications, removes
    that entry or calls the platform's [_clear] for [n]. *)
Theorem untrue_identifier_is_never_cleared n k :
  k = IdInt 0 ∨ k = IdStr EmptyString →
  (∀ w p, identifier (heap w n) = Some k →
     emitted (clear n p w) = [] ∧
     result (clear n p w) = Returned tt ∧
     _notification_for_nid (self (final (clear n p w))) = _notification_for_nid (self w) ∧
     _notification_for_nid (self (final (_clear_notification_from_cache n w)))
     = _notification_for_nid (self w)) ∧
  (∀ w ops, notification_limit (self w) ≠ Some 0 →
     forallb is_removal ops = true →
     result (send n (Answers k) w) = Returned tt ∧
     _notification_for_nid (self (final (send n (Answers k) w))) !! k = Some n ∧
     _notification_for_nid (self (run ops (final (send n (Answers k) w)))) !! k = Some n ∧
     CallClear n ∉ trace ops (final (send n (Answers k) w))).
Proof.
  intros Hk. assert (ident_truthy k = false) as Hfalse by (by destruct Hk as [-> | ->]).
  split.
  - intros w p Hn. rewrite clear_spec, cache_removal_spec, Hn. simpl. rewrite Hfalse.
    unfold final, emitted, result, without. simpl. by rewrite Hn, Hfalse.
  - intros w ops Hlim Hops.
    destruct (send_answers_spec n k w Hlim) as (Hres & _ & Hidx & _ & _ & Hident).
    specialize (Hident n). rewrite decide_True in Hident by done.
    destruct (removals_spare_untrue_identifier n k ops _ Hfalse Hident Hops)
      as [Hkeep Htr].
    rewrite Hkeep, Hidx, lookup_insert_eq. done.
Qed.

Lemma untrue_identifier_is_never_cleared_witness :
  emitted (clear A (Answers tt)
             (final (send A (Answers (IdInt 0)) (start objects (notifier None))))) = [].
Proof.
  refine (proj1 (proj1 (untrue_identifier_is_never_cleared A (IdInt 0) _) _ _ _)).
  - left. reflexivity.
  - reflexivity.
Defined.

(** ** The limit *)

Lemma run_app ops1 ops2 w : run (ops1 ++ ops2) w = run ops2 (run ops1 w).
Proof. revert w. induction ops1 as [|o ops1 IH]; intros w; simpl; [done|]. apply IH. Qed.

Lemma delivered_app ops1 ops2 :
  delivered (ops1 ++ ops2) = delivered ops1 ++ delivered ops2.
Proof. apply flat_map_app. Qed.

Lemma tail_drop (l : list ref) m : tail (drop m l) = drop (S m) l.
Proof.
  revert m. induction l as [|x l IH]; intros m; [by destruct m|].
  destruct m as [|m]; simpl; [by rewrite drop_0|]. apply IH.
Qed.

Lemma lastn_length m l : length (lastn m l) = Nat.min m (length l).
Proof. unfold lastn. rewrite length_drop. lia. Qed.

(** Appending to the last [m] items when they already are [m]: the oldest
    one goes. *)
Lemma lastn_snoc_full m l x :
  (0 < m)%nat → length (lastn m l) = m →
  lastn m (l ++ [x]) = tail (lastn m l) ++ [x].
Proof.
  intros Hm Hlen. rewrite lastn_length in Hlen. unfold lastn.
  rewrite tail_drop, length_app. simpl.
  rewrite drop_app_le by lia. f_equal. f_equal. lia.
Qed.

Lemma lastn_snoc_room m l x :
  length (lastn m l) ≠ m →
  lastn m (l ++ [x]) = lastn m l ++ [x].
Proof.
  intros Hlen. rewrite lastn_length in Hlen. unfold lastn.
  rewrite length_app. simpl.
  replace (length l + 1 - m)%nat with 0%nat by lia.
  replace (length l - m)%nat with 0%nat by lia. by rewrite !drop_0.
Qed.

Lemma remove_first_length x l :
  (length (deque.remove_first x l) ≤ length l)%nat.
Proof. induction l as [|y l IH]; simpl; [done|]. case_decide; simpl; lia. Qed.

Lemma exec_length o w N :
  tracked w → notification_limit (self w) = Some N →
  Z.of_nat (length (current_notifications w)) ≤ N →
  Z.of_nat (length (current_notifications (final (exec o w)))) ≤ N.
Proof.
  intros [Hzero _] Hlim Hlen.
  assert (∀ n, Z.of_nat (length (current_notifications (without n w))) ≤ N) as Hwo.
  { intros n. unfold current_notifications in *. simpl.
    pose proof (remove_first_length n (_current_notifications (self w))). lia. }
  destruct o as [n [k|e]|n p|p|n]; simpl.
  - destruct (decide (N = 0)) as [->|HN].
    + destruct (send_limit_zero n (Answers k) w Hlim (Hzero Hlim))
        as (_ & _ & Hself & _).
      unfold current_notifications in *. by rewrite Hself.
    + destruct (send_answers_spec n k w) as (_ & Hcur & _).
      { rewrite Hlim. congruence. }
      rewrite Hcur, Hlim, length_app. simpl. clear Hcur.
      case_decide as Hfull.
      * destruct (current_notifications w); simpl in *; lia.
      * assert (Z.of_nat (length (current_notifications w)) ≠ N) by congruence.
        lia.
  - destruct (send_throws_registry n e w) as (_ & _ & [Hcur|Hcur]);
      rewrite Hcur; [done|].
    destruct (current_notifications w); simpl in *; lia.
  - rewrite clear_final. destruct (opt_ident_truthy _); [|apply Hwo].
    destruct p as [[]|e]; [apply Hwo|done].
  - rewrite clear_all_spec. destruct p as [[]|e]; [|done].
    unfold final, current_notifications. simpl. lia.
  - rewrite cache_removal_spec. apply Hwo.
Qed.

Lemma run_length ops w N :
  tracked w → notification_limit (self w) = Some N →
  Z.of_nat (length (current_notifications w)) ≤ N →
  Z.of_nat (length (current_notifications (run ops w))) ≤ N.
Proof.
  revert w. induction ops as [|o ops IH]; intros w Ht Hlim Hlen; simpl; [done|].
  apply IH.
  - by apply exec_tracked.
  - by rewrite exec_limit.
  - by apply exec_length.
Qed.

Lemma sends_current h name icon N s ops :
  DesktopNotifierBase__init__ name icon (Some N) = Returned s →
  forallb is_send ops = true →
  forallb caught ops = true →
  current_notifications (run ops (start h s)) = lastn (Z.to_nat N) (delivered ops).
Proof.
  intros Hs. destruct (init_tracked h _ _ _ _ Hs) as [Ht Hlim0].
  destruct (init_returns _ _ _ _ Hs) as [-> HN]. specialize (HN N eq_refl).
  induction ops as [|o ops IH] using rev_ind; intros Hops Hcaught; [done|].
  rewrite forallb_app in Hops. apply andb_prop in Hops as [Hops Ho].
  rewrite forallb_app in Hcaught. apply andb_prop in Hcaught as [Hcaught Hc].
  specialize (IH Hops Hcaught). rewrite run_app, delivered_app. simpl.
  destruct (run_tracked ops _ Ht) as [[Hzero _] Hlim].
  simpl in Hlim.
  set (w := run ops (start h _)) in *.
  destruct o as [n [k|e]|n p|p|n]; try discriminate; simpl.
  - destruct (decide (N = 0)) as [->|HN0].
    + destruct (send_limit_zero n (Answers k) w Hlim (Hzero Hlim))
        as (_ & _ & Hself & _).
      unfold current_notifications in *. rewrite Hself, IH.
      unfold lastn. simpl. by rewrite !Nat.sub_0_r, !drop_all.
    + destruct (send_answers_spec n k w) as (_ & Hcur & _).
      { rewrite Hlim. congruence. }
      rewrite Hcur, Hlim, IH. clear Hcur. case_decide as Hfull.
      * rewrite lastn_snoc_full; [done|lia|]. injection Hfull. lia.
      * rewrite lastn_snoc_room; [done|]. intros Hlen. apply Hfull.
        f_equal. lia.
  - simpl in Hc. rewrite andb_true_r in Hc.
    unfold current_notifications in *. rewrite send_throws_self, IH by done.
    by rewrite app_nil_r.
Qed.

Lemma three_sends h name icon s X Y Z :
  DesktopNotifierBase__init__ name icon (Some 2) = Returned s →
  let w := run [Send X (Answers (IdInt 1)); Send Y (Answers (IdInt 2));
                Send Z (Answers (IdInt 3))] (start h s) in
  current_notifications w = [Y; Z] ∧
  _notification_for_nid (self w)
  = <[IdInt 3 := Z]> (<[IdInt 2 := Y]> (<[IdInt 1 := X]> ∅)).
Proof.
  intros [-> _]%init_returns.
  simpl.
  set (w0 := start h _).
  destruct (send_answers_spec X (IdInt 1) w0) as (_ & Hc1 & Hi1 & Hl1 & _); [done|].
  set (w1 := final (send X _ w0)) in *.
  destruct (send_answers_spec Y (IdInt 2) w1) as (_ & Hc2 & Hi2 & Hl2 & _).
  { by rewrite Hl1. }
  set (w2 := final (send Y _ w1)) in *.
  destruct (send_answers_spec Z (IdInt 3) w2) as (_ & Hc3 & Hi3 & _).
  { by rewrite Hl2, Hl1. }
  rewrite Hi3, Hi2, Hi1, Hc3, Hc2, Hc1, Hl2, Hl1. done.
Qed.

(** C3, as the code has it. After any sequence of calls of [send] to a
    notifier constructed with limit [N], the deque holds at most [N]
    notifications; when every exception of the platform derives from
    [Exception], these are the last [N] of the notifications delivered, oldest
    first. With limit 2 and [X], [Y], [Z] delivered under the identifiers 1,
    2 and 3, the deque is [Y; Z]; the index is {1: X, 2: Y, 3: Z}, for
    eviction takes [X] out of the deque and leaves its entry in the index. *)
Theorem sends_keep_the_latest h name icon N s ops :
  DesktopNotifierBase__init__ name icon (Some N) = Returned s →
  forallb is_send ops = true →
  Z.of_nat (length (current_notifications (run ops (start h s)))) ≤ N ∧
  (forallb caught ops = true →
   current_notifications (run ops (start h s))
   = lastn (Z.to_nat N) (delivered ops)) ∧
  (∀ X Y Z,
     N = 2 →
     ops = [Send X (Answers (IdInt 1)); Send Y (Answers (IdInt 2));
            Send Z (Answers (IdInt 3))] →
     current_notifications (run ops (start h s)) = [Y; Z] ∧
     _notification_for_nid (self (run ops (start h s)))
     = <[IdInt 3 := Z]> (<[IdInt 2 := Y]> (<[IdInt 1 := X]> ∅)) ∧
     _notification_for_nid (self (run ops (start h s))) !! IdInt 1 = Some X).
Proof.
  intros Hs Hops. split_and!.
  - destruct (init_tracked h _ _ _ _ Hs) as [Ht Hlim].
    destruct (init_returns _ _ _ _ Hs) as [-> HN]. specialize (HN N eq_refl).
    apply run_length; [done..|]. simpl. lia.
  - intros Hcaught. by apply (sends_current h name icon).
  - intros X Y Z -> ->.
    destruct (three_sends h _ _ _ X Y Z Hs) as [Hcur Hidx].
    split; [done|]. split; [done|]. rewrite Hidx.
    rewrite lookup_insert_ne by done. rewrite lookup_insert_ne by done.
    apply lookup_insert_eq.
Qed.

Lemma sends_keep_the_latest_witness :
  current_notifications after_A_B_C = [B; C] ∧
  _notification_for_nid (self after_A_B_C) !! IdInt 1 = Some A.
Proof.
  destruct (sends_keep_the_latest objects "Python" (Some "x.png") 2
              (notifier (Some 2))
              [Send A (Answers (IdInt 1)); Send B (Answers (IdInt 2));
               Send C (Answers (IdInt 3))]) as (_ & _ & Hscenario).
  - reflexivity.
  - reflexivity.
  - destruct (Hscenario A B C) as (Hcur & _ & HA); [reflexivity | reflexivity |].
    split; [exact Hcur | exact HA].
Defined.

(** C3, refuted as stated: with limit 2 and [A], [B], [C] delivered under the
    identifiers 1, 2 and 3, the index is not {2: B, 3: C}, and [A] still has
    its entry in it. *)
Lemma evicted_notification_stays_in_index :
  ¬ (current_notifications after_A_B_C = [B; C] ∧
     _notification_for_nid (self after_A_B_C)
     = <[IdInt 3 := C]> (<[IdInt 2 := B]> ∅) ∧
     _notification_for_nid (self after_A_B_C) !! IdInt 1 = None).
Proof. intros (_ & _ & HA). vm_compute in HA. discriminate. Qed.

(** ** The deque and the index, side by side *)

Lemma without_indexed n w E :
  indexed w → index_within E w →
  indexed (without n w) ∧ index_within E (without n w).
Proof.
  intros (I1 & I2 & I3 & I4 & I5) G.
  assert (∀ k r, _notification_for_nid (self (without n w)) !! k = Some r →
                 _notification_for_nid (self w) !! k = Some r ∧ r ≠ n) as Hsub.
  { intros k r. unfold without. simpl.
    destruct (identifier (heap w n)) as [kn|] eqn:Hn.
    - rewrite (I5 _ _ Hn). intros [Hne Hk]%lookup_delete_Some.
      split; [done|]. intros ->. apply I2 in Hk. congruence.
    - intros Hk. split; [done|]. intros ->. apply I2 in Hk. congruence. }
  split; [split_and!|].
  - intros r Hr. unfold current_notifications in *. simpl in Hr.
    assert (r ≠ n) as Hrn.
    { intros ->. by apply (remove_first_NoDup_gone n _ I3). }
    apply remove_first_subset in Hr. destruct (I1 r Hr) as (k & Hk & Hidx).
    exists k. split; [done|]. unfold without. simpl.
    destruct (identifier (heap w n)) as [kn|] eqn:Hn; [|done].
    rewrite (I5 _ _ Hn). rewrite lookup_delete_ne; [done|].
    intros ->. apply Hrn. by eapply I4.
  - intros k r Hk. apply Hsub in Hk as [Hk _]. by apply I2.
  - by apply remove_first_NoDup.
  - done.
  - done.
  - intros k r Hk. apply Hsub in Hk as [Hk Hrn].
    destruct (G k r Hk) as [Hr|Hr]; [left|by right].
    by apply remove_first_other.
Qed.

Lemma send_indexed n k w ops E :
  tracked w → indexed w → index_within E w →
  well_behaved (Send n (Answers k) :: ops) →
  fresh_for w (Send n (Answers k) :: ops) →
  let w' := final (send n (Answers k) w) in
  indexed w' ∧ fresh_for w' ops ∧
  index_within (E ++ evicts w (Send n (Answers k))) w'.
Proof.
  intros [Hzero Hids] (I1 & I2 & I3 & I4 & I5) G (Wn & Wk & Wt & _) [Fn Fk].
  simpl in Wn, Wk, Wt, Fn, Fk.
  apply NoDup_cons in Wn as [Wn Wn']. apply NoDup_cons in Wk as [Wk Wk'].
  apply Forall_cons in Wt as [Wt Wt'].
  assert (identifier (heap w n) = None) as Hn by (apply Fn; set_solver).
  assert (n ∉ current_notifications w) as Hnotin.
  { intros Hin. by apply (Hids n Hin). }
  destruct (decide (notification_limit (self w) = Some 0)) as [Hlim|Hlim].
  { destruct (send_limit_zero n (Answers k) w Hlim (Hzero Hlim))
      as (_ & _ & Hself & Hident).
    pose proof (Hzero Hlim) as Hcur0.
    assert (evicts w (Send n (Answers k)) = []) as ->.
    { unfold evicts. rewrite Hcur0. by case_decide. }
    rewrite app_nil_r. simpl.
    unfold indexed, fresh_for, index_within, current_notifications in *.
    rewrite Hself. split_and!; try done.
    - intros r Hr. destruct (I1 r Hr) as (k' & ? & ?). exists k'.
      by rewrite Hident.
    - intros k' r Hk'. rewrite Hident. by apply I2.
    - intros r1 r2 k'. rewrite !Hident. apply I4.
    - intros r k'. rewrite Hident. apply I5.
    - intros r Hr. rewrite Hident. apply Fn. set_solver.
    - intros r k'. rewrite Hident. intros Hk'. apply Fk in Hk'. set_solver. }
  destruct (send_answers_spec n k w Hlim) as (_ & Hcur & Hidx & _ & _ & Hident).
  simpl. set (w' := final (send n (Answers k) w)) in *.
  assert (∀ r k', identifier (heap w r) = Some k' →
                  identifier (heap w' r) = Some k' ∧ k' ≠ k ∧ r ≠ n) as Hold.
  { intros r k' Hr. assert (r ≠ n) by congruence.
    rewrite Hident, decide_False by done. split; [done|]. split; [|done].
    intros ->. apply (Fk r k Hr). set_solver. }
  assert (∀ r k', identifier (heap w' r) = Some k' →
                  r = n ∧ k' = k ∨ r ≠ n ∧ identifier (heap w r) = Some k') as Hnew.
  { intros r k'. rewrite Hident.
    destruct (decide (r = n)); intros ?; [left|right]; split; congruence. }
  split_and!.
  - split_and!.
    + intros r. rewrite Hcur. intros [Hr| ->]%elem_of_room.
      * destruct (I1 r Hr) as (k' & Hk' & Hi). exists k'.
        destruct (Hold _ _ Hk') as (? & ? & ?).
        split; [done|]. by rewrite Hidx, lookup_insert_ne.
      * exists k. rewrite Hident, decide_True by done.
        by rewrite Hidx, lookup_insert_eq.
    + intros k' r. rewrite Hidx. intros [[-> ->]|[Hne Hk']]%lookup_insert_Some.
      * by rewrite Hident, decide_True.
      * apply I2 in Hk'. by destruct (Hold _ _ Hk').
    + rewrite Hcur. apply NoDup_app. split_and!.
      * case_decide; [|done].
        destruct (current_notifications w); [done|]. by apply NoDup_cons in I3 as [_ ?].
      * intros r Hr ->%list_elem_of_singleton. apply Hnotin.
        case_decide; [by apply elem_of_tail|done].
      * apply NoDup_singleton.
    + intros r1 r2 k' [[-> ->]|[? H1]]%Hnew [[-> E2]|[? H2]]%Hnew; try done.
      * destruct (Hold _ _ H2) as (_ & ? & _). done.
      * destruct (Hold _ _ H1) as (_ & ? & _). done.
      * by eapply I4.
    + intros r k' [[-> ->]|[? H1]]%Hnew; [done|]. by eapply I5.
  - split.
    + intros r Hr. rewrite Hident. destruct (decide (r = n)) as [->|Hrn]; [done|].
      apply Fn. set_solver.
    + intros r k' [[-> ->]|[? H1]]%Hnew; [done|].
      apply Fk in H1. set_solver.
  - intros k' r. rewrite Hidx, Hcur.
    intros [[-> ->]|[Hne Hk']]%lookup_insert_Some; [left; set_solver|].
    destruct (G k' r Hk') as [Hr|Hr]; [|right; set_solver].
    unfold evicts. case_decide as Hfull; [|left; set_solver].
    destruct (current_notifications w) as [|x cur]; [by apply elem_of_nil in Hr|].
    simpl. apply elem_of_cons in Hr as [->|Hr]; [right|left]; set_solver.
Qed.

Lemma well_behaved_tail o ops : well_behaved (o :: ops) → well_behaved ops.
Proof.
  unfold well_behaved. simpl. intros (Hn & Hk & Ht & Hc).
  apply NoDup_app in Hn as (_ & _ & Hn). apply NoDup_app in Hk as (_ & _ & Hk).
  apply Forall_app in Ht as [_ Ht]. apply andb_prop in Hc as [_ Hc]. done.
Qed.

Lemma exec_indexed o ops w E :
  tracked w → indexed w → index_within E w →
  well_behaved (o :: ops) → fresh_for w (o :: ops) →
  indexed (final (exec o w)) ∧ fresh_for (final (exec o w)) ops ∧
  index_within (E ++ evicts w o) (final (exec o w)).
Proof.
  intros Ht Hi G Hw Hf.
  destruct o as [n [k|e]|n p|p|n]; simpl.
  - by apply send_indexed.
  - rewrite app_nil_r.
    assert (is_Exception e = true) as He.
    { destruct Hw as (_ & _ & _ & Hc). simpl in Hc. by apply andb_prop in Hc as [? _]. }
    unfold indexed, fresh_for, index_within, current_notifications in *.
    rewrite send_throws_self by done. destruct Hi as (I1 & I2 & I3 & I4 & I5).
    destruct Hf as [Fn Fk]. split_and!; try done.
    + intros r Hr. destruct (I1 r Hr) as (k' & ? & ?). exists k'.
      by rewrite send_throws_identifier.
    + intros k' r Hk'. rewrite send_throws_identifier. by apply I2.
    + intros r1 r2 k'. rewrite !send_throws_identifier. apply I4.
    + intros r k'. rewrite send_throws_identifier. apply I5.
    + intros r Hr. rewrite send_throws_identifier. by apply Fn.
    + intros r k'. rewrite send_throws_identifier. apply Fk.
  - rewrite app_nil_r, clear_final.
    destruct (without_indexed n w E Hi G) as [Hi' G'].
    destruct (opt_ident_truthy _); [destruct p as [[]|e]|]; done.
  - rewrite app_nil_r, clear_all_spec. destruct p as [[]|e]; [|done].
    unfold final. simpl. destruct Hi as (I1 & I2 & I3 & I4 & I5).
    split_and!; try done.
    unfold indexed, current_notifications. simpl. split_and!; try done.
    + intros r Hr. by apply elem_of_nil in Hr.
    + apply NoDup_nil_2.
  - rewrite app_nil_r, cache_removal_spec.
    destruct (without_indexed n w E Hi G) as [Hi' G']. done.
Qed.

Lemma run_indexed ops w E :
  tracked w → indexed w → index_within E w →
  well_behaved ops → fresh_for w ops →
  indexed (run ops w) ∧ index_within (E ++ evicted ops w) (run ops w).
Proof.
  revert w E. induction ops as [|o ops IH]; intros w E Ht Hi G Hw Hf; simpl.
  { by rewrite app_nil_r. }
  destruct (exec_indexed o ops w E Ht Hi G Hw Hf) as (Hi' & Hf' & G').
  rewrite app_assoc. apply IH; try done.
  - by apply exec_tracked.
  - by eapply well_behaved_tail.
Qed.

Lemma evicted_without_limit ops w :
  tracked w → notification_limit (self w) = None → evicted ops w = [].
Proof.
  revert w. induction ops as [|o ops IH]; intros w Ht Hlim; simpl; [done|].
  rewrite IH.
  - rewrite app_nil_r. unfold evicts. destruct o as [n [k|e]|n p|p|n]; try done.
    rewrite Hlim. by rewrite decide_False.
  - by apply exec_tracked.
  - by rewrite exec_limit.
Qed.

(** C1, as the code has it. Take a state that the notifier reaches from its
    construction by calls of [send], [clear], [clear_all] and
    [_clear_notification_from_cache], where the notifications start without
    identifier, the platform hands out identifiers that are true values and
    pairwise distinct, every exception that the platform's [_send] raises
    derives from [Exception], and no notification is delivered twice. Then each
    notification of the deque carries an identifier and is the entry of the
    index under it. Each entry of the index carries the identifier it is filed
    under, and it is in the deque unless a later [send] has evicted it: the
    eviction takes it out of the deque only. Without a limit nothing is
    evicted, and the deque and the index hold the same notifications. *)
Theorem registry_in_step h name icon limit s ops :
  DesktopNotifierBase__init__ name icon limit = Returned s →
  (∀ r, identifier (h r) = None) →
  well_behaved ops →
  deque_within_index (run ops (start h s)) ∧
  (∀ r, r ∈ current_notifications (run ops (start h s)) →
        identifier (heap (run ops (start h s)) r) ≠ None) ∧
  (∀ k r, _notification_for_nid (self (run ops (start h s))) !! k = Some r →
          identifier (heap (run ops (start h s)) r) = Some k ∧
          (r ∈ current_notifications (run ops (start h s)) ∨
           r ∈ evicted ops (start h s))) ∧
  (limit = None → in_step (run ops (start h s))).
Proof.
  intros Hs Hh Hw.
  destruct (init_tracked h _ _ _ _ Hs) as [Ht Hlim].
  destruct (init_returns _ _ _ _ Hs) as [Hs' _].
  destruct (run_indexed ops (start h s) [] Ht) as [(I1 & I2 & _) G].
  - subst s. split_and!; try done.
    + intros r Hr. by apply elem_of_nil in Hr.
    + apply NoDup_nil_2.
    + intros r1 r2 k Hk. simpl in Hk. by rewrite Hh in Hk.
    + intros r k Hk. simpl in Hk. by rewrite Hh in Hk.
  - subst s. intros k r Hk. done.
  - done.
  - split; [done|]. intros r k Hk. simpl in Hk. by rewrite Hh in Hk.
  - assert (deque_within_index (run ops (start h s))) as Hdi.
    { intros r k Hr Hk. destruct (I1 r Hr) as (k' & Hk' & Hidx). congruence. }
    rewrite app_nil_l in G. unfold index_within in G.
    split_and!.
    + done.
    + intros r Hr. destruct (I1 r Hr) as (k' & Hk' & _). congruence.
    + intros k r Hk. split; [by apply I2|]. by apply (G k).
    + intros ->. split; [|done]. intros k r Hk.
      destruct (G k r Hk) as [Hr|Hr]; [done|].
      rewrite evicted_without_limit in Hr; [|done..].
      by apply elem_of_nil in Hr.
Qed.

Lemma registry_in_step_witness :
  in_step (run [Send A (Answers (IdInt 1)); Send B (Answers (IdInt 2));
                Clear A (Answers tt)]
               (start objects (notifier None))).
Proof.
  refine (proj2 (proj2 (proj2 (registry_in_step objects "Python" (Some "x.png")
            None (notifier None)
            [Send A (Answers (IdInt 1)); Send B (Answers (IdInt 2));
             Clear A (Answers tt)] _ _ _))) _).
  - reflexivity.
  - intros r. reflexivity.
  - unfold well_behaved. simpl. split_and!.
    + apply (bool_decide_unpack _). vm_compute. reflexivity.
    + apply (bool_decide_unpack _). vm_compute. reflexivity.
    + repeat constructor.
    + reflexivity.
  - reflexivity.
Defined.

(** C1, refuted as stated: with limit 2 and [A], [B], [C] delivered under the
    identifiers 1, 2 and 3, the notification [A] is in the index, under 1, and
    not in the deque. *)
Lemma evicted_notification_breaks_step : ¬ in_step after_A_B_C.
Proof.
  intros [Hidx _]. specialize (Hidx (IdInt 1) A).
  assert (A ∈ [B; C]) as HA by (apply Hidx; reflexivity).
  rewrite !elem_of_cons, elem_of_nil in HA. unfold A, B, C in HA. lia.
Qed.

(** * Further properties of the code *)

Lemma remove_first_snoc x l : x ∉ l → deque.remove_first x (l ++ [x]) = l.
Proof.
  induction l as [|y l IH]; simpl; [by rewrite decide_True|].
  intros [Hxy Hl]%not_elem_of_cons.
  rewrite decide_False by congruence. by rewrite IH.
Qed.

Lemma remove_first_sublist x l : deque.remove_first x l `sublist_of` l.
Proof.
  induction l as [|y l IH]; simpl; [constructor|].
  case_decide; [by apply sublist_cons|by apply sublist_skip].
Qed.

Lemma remove_first_occurrences x y l :
  occurrences y (deque.remove_first x l)
  = if decide (y = x) then pred (occurrences x l) else occurrences y l.
Proof.
  unfold occurrences. induction l as [|z l IH]; simpl; [by case_decide|].
  destruct (decide (z = x)) as [->|Hzx].
  - destruct (decide (y = x)) as [->|Hyx].
    + by rewrite filter_cons_True.
    + by rewrite filter_cons_False by congruence.
  - destruct (decide (z = y)) as [->|Hzy].
    + rewrite filter_cons_True by done. simpl. rewrite IH.
      rewrite !decide_False by congruence.
      by rewrite filter_cons_True by done.
    + rewrite filter_cons_False by done. rewrite IH.
      destruct (decide (y = x)) as [->|Hyx].
      * by rewrite filter_cons_False by done.
      * by rewrite filter_cons_False by done.
Qed.

(** ** A delivery, step by step *)

(** X1. A [send] that the platform answers with the identifier [k], to a
    notifier whose limit is not 0, returns; the notification then carries [k],
    is the newest of the deque and is the entry of the index under [k]. No
    other entry of the index changes, and the deque grows by one unless it was
    full. *)
Theorem send_delivers n k w :
  notification_limit (self w) ≠ Some 0 →
  result (send n (Answers k) w) = Returned tt ∧
  identifier (heap (final (send n (Answers k) w)) n) = Some k ∧
  _notification_for_nid (self (final (send n (Answers k) w))) !! k = Some n ∧
  (∀ k', k' ≠ k →
     _notification_for_nid (self (final (send n (Answers k) w))) !! k'
     = _notification_for_nid (self w) !! k') ∧
  last (current_notifications (final (send n (Answers k) w))) = Some n ∧
  length (current_notifications (final (send n (Answers k) w)))
  = if decide (Some (Z.of_nat (length (current_notifications w)))
               = notification_limit (self w))
    then length (current_notifications w)
    else S (length (current_notifications w)).
Proof.
  intros Hlim.
  destruct (send_answers_spec n k w Hlim) as (Hres & Hcur & Hidx & _ & _ & Hident).
  split_and!.
  - done.
  - by rewrite Hident, decide_True.
  - by rewrite Hidx, lookup_insert_eq.
  - intros k' Hk'. by rewrite Hidx, lookup_insert_ne.
  - rewrite Hcur. apply last_snoc.
  - rewrite Hcur, length_app. simpl. case_decide as Hfull; [|lia].
    destruct (current_notifications w) as [|x l]; simpl; [|lia].
    exfalso. apply Hlim. by rewrite <- Hfull.
Qed.

Lemma send_delivers_witness :
  last (current_notifications
          (final (send C (Answers (IdInt 3)) (after_A_B (Some 2))))) = Some C.
Proof.
  refine (proj1 (proj2 (proj2 (proj2 (proj2
            (send_delivers C (IdInt 3) (after_A_B (Some 2)) _)))))).
  vm_compute. discriminate.
Defined.

(** X2. [clear] takes back what [send] did to the deque and the index: when
    the deque has room, the notification is not yet in it, and the identifier
    is a true value the index does not hold, a delivery followed by a [clear]
    that returns leaves the deque and the index as they were before. *)
Theorem clear_undoes_send n k w :
  notification_limit (self w) ≠ Some 0 →
  Some (Z.of_nat (length (current_notifications w))) ≠ notification_limit (self w) →
  n ∉ current_notifications w →
  ident_truthy k = true →
  _notification_for_nid (self w) !! k = None →
  result (clear n (Answers tt) (final (send n (Answers k) w))) = Returned tt ∧
  current_notifications (final (clear n (Answers tt) (final (send n (Answers k) w))))
  = current_notifications w ∧
  _notification_for_nid (self (final (clear n (Answers tt) (final (send n (Answers k) w)))))
  = _notification_for_nid (self w).
Proof.
  intros Hlim Hroom Hn Hk Hfree.
  destruct (send_answers_spec n k w Hlim) as (_ & Hcur & Hidx & _ & _ & Hident).
  specialize (Hident n). rewrite decide_True in Hident by done.
  rewrite decide_False in Hcur by done.
  rewrite clear_result, clear_final, Hident. simpl. rewrite Hk.
  unfold without, current_notifications in *. simpl.
  rewrite Hident, Hk, Hcur, Hidx. split_and!; [done| |].
  - by apply remove_first_snoc.
  - by apply delete_insert_id.
Qed.

Lemma clear_undoes_send_witness :
  current_notifications
    (final (clear C (Answers tt) (final (send C (Answers (IdInt 3)) (after_A_B None)))))
  = current_notifications (after_A_B None).
Proof.
  refine (proj1 (proj2 (clear_undoes_send C (IdInt 3) (after_A_B None) _ _ _ _ _))).
  - vm_compute. discriminate.
  - vm_compute. discriminate.
  - change (C ∉ [A; B]). rewrite !elem_of_cons, elem_of_nil. unfold A, B, C. lia.
  - reflexivity.
  - reflexivity.
Defined.

(** ** The limit, in any run *)

(** X3. A notifier constructed with limit [N] never holds more than [N]
    notifications in its deque, whatever is called on it and whatever the
    platform answers. *)
Theorem run_respects_limit h name icon N s ops :
  DesktopNotifierBase__init__ name icon (Some N) = Returned s →
  Z.of_nat (length (current_notifications (run ops (start h s)))) ≤ N.
Proof.
  intros Hs. destruct (init_tracked h _ _ _ _ Hs) as [Ht Hlim].
  destruct (init_returns _ _ _ _ Hs) as [-> HN]. specialize (HN N eq_refl).
  apply run_length; [done..|]. simpl. lia.
Qed.

Lemma run_respects_limit_witness :
  Z.of_nat (length (current_notifications after_A_B_C)) ≤ 2.
Proof.
  refine (run_respects_limit objects "Python" (Some "x.png") 2 (notifier (Some 2))
            [Send A (Answers (IdInt 1)); Send B (Answers (IdInt 2));
             Send C (Answers (IdInt 3))] _).
  reflexivity.
Defined.

(** ** What [clear] removes *)

(** X4. When the notification carries an identifier that is a true value and
    the platform's [_clear] raises, [clear] passes the exception on after that
    one call and removes nothing: the notification stays in the deque and in
    the index. *)
Theorem clear_failure_propagates n k e w :
  identifier (heap w n) = Some k →
  ident_truthy k = true →
  result (clear n (Throws e) w) = Raised e ∧
  emitted (clear n (Throws e) w) = [CallClear n] ∧
  final (clear n (Throws e) w) = w.
Proof. intros Hn Hk. rewrite clear_spec, Hn. simpl. by rewrite Hk. Qed.

Lemma clear_failure_propagates_witness :
  final (clear A (Throws unavailable) (after_A_B None)) = after_A_B None.
Proof.
  refine (proj2 (proj2 (clear_failure_propagates A (IdInt 1) unavailable
                          (after_A_B None) _ _))); reflexivity.
Defined.

(** X5. A [clear] that returns takes one occurrence of the notification out of
    the deque, keeps all other notifications in their order, changes no
    object, and deletes from the index the key that is the notification's
    identifier, when that is a true value. *)
Theorem clear_removes_one_entry n p w :
  result (clear n p w) = Returned tt →
  (∀ m, occurrences m (current_notifications (final (clear n p w)))
        = if decide (m = n)
          then pred (occurrences n (current_notifications w))
          else occurrences m (current_notifications w)) ∧
  current_notifications (final (clear n p w)) `sublist_of` current_notifications w ∧
  (∀ k, identifier (heap w n) = Some k → ident_truthy k = true →
        _notification_for_nid (self (final (clear n p w)))
        = delete k (_notification_for_nid (self w))) ∧
  heap (final (clear n p w)) = heap w.
Proof.
  rewrite clear_result, clear_final. intros Hres.
  assert ((if opt_ident_truthy (identifier (heap w n))
           then match p with Answers _ => without n w | Throws _ => w end
           else without n w) = without n w) as ->.
  { destruct (opt_ident_truthy _); [|done]. by destruct p. }
  unfold current_notifications. simpl. split_and!.
  - intros m. apply remove_first_occurrences.
  - apply remove_first_sublist.
  - intros k Hn Hk. by rewrite Hn, Hk.
  - done.
Qed.

Lemma clear_removes_one_entry_witness :
  current_notifications (final (clear A (Answers tt) (after_A_B None)))
  `sublist_of` current_notifications (after_A_B None).
Proof.
  refine (proj1 (proj2 (clear_removes_one_entry A (Answers tt) (after_A_B None) _))).
  reflexivity.
Defined.

(** X6. [clear] deletes from the index by key, whichever notification is
    filed there. When another notification [m] of the deque carries the same
    identifier and holds the entry (the platform gave [m] the identifier of
    the notification it replaced), a [clear] of [n] that returns deletes the
    entry of [m]: [m] stays in the deque and is no longer in the index. *)
Theorem clear_of_replaced_drops_replacement n m k p w :
  identifier (heap w n) = Some k →
  ident_truthy k = true →
  m ≠ n →
  m ∈ current_notifications w →
  identifier (heap w m) = Some k →
  _notification_for_nid (self w) !! k = Some m →
  result (clear n p w) = Returned tt →
  m ∈ current_notifications (final (clear n p w)) ∧
  _notification_for_nid (self (final (clear n p w))) !! k = None ∧
  ¬ deque_within_index (final (clear n p w)).
Proof.
  intros Hn Hk Hmn Hm Hmk Hidx. rewrite clear_result, clear_final, Hn. simpl.
  rewrite Hk. destruct p as [[]|e]; [intros _|done].
  assert (m ∈ current_notifications (without n w)) as Hin.
  { unfold current_notifications. simpl. by apply remove_first_other. }
  assert (_notification_for_nid (self (without n w)) !! k = None) as Hgone.
  { simpl. rewrite Hn, Hk. apply lookup_delete_eq. }
  split_and!; [done..|].
  intros Hdi. specialize (Hdi m k Hin Hmk). congruence.
Qed.

Lemma clear_of_replaced_drops_replacement_witness :
  ¬ deque_within_index (final (clear A (Answers tt) after_A_replaced_by_B)).
Proof.
  refine (proj2 (proj2 (clear_of_replaced_drops_replacement A B (IdInt 1)
            (Answers tt) after_A_replaced_by_B _ _ _ _ _ _ _))).
  - reflexivity.
  - reflexivity.
  - unfold A, B. lia.
  - change (B ∈ [B]). apply list_elem_of_here.
  - reflexivity.
  - reflexivity.
  - reflexivity.
Defined.

(** X7. Eviction leaves no dangling entry when the platform hands the new
    notification the identifier of the one it replaces: if every entry of the
    index is in the deque, the deque is full, and its oldest notification [x]
    is filed under [k] only, then [send] calls the platform's [_send] with [x]
    as the notification to replace, and when the answer is [k], every entry of
    the index is in the deque again. *)
Theorem reused_identifier_leaves_no_stale_entry n k x l w :
  current_notifications w = x :: l →
  notification_limit (self w) = Some (Z.of_nat (length (x :: l))) →
  index_within_deque w →
  (∀ k', _notification_for_nid (self w) !! k' = Some x → k' = k) →
  (∃ st, emitted (send n (Answers k) w) = [CallSend n st (Some x)]) ∧
  index_within_deque (final (send n (Answers k) w)).
Proof.
  intros Hcur Hlim Hin Honly. split.
  { destruct (send_events n (Answers k) w)
      as [(_ & _ & Hzero & _)|(_ & st & Hev & _)].
    - rewrite Hlim in Hzero. simpl length in Hzero. injection Hzero. lia.
    - exists st. rewrite Hev. unfold to_replace. rewrite Hcur, Hlim.
      by rewrite decide_True. }
  destruct (send_answers_spec n k w) as (_ & Hcur' & Hidx & _).
  { rewrite Hlim. simpl length. intros [=]; lia. }
  rewrite Hcur, Hlim, decide_True in Hcur' by done. simpl in Hcur'.
  intros k' r. rewrite Hidx, Hcur'.
  intros [[-> ->]|[Hne Hk']]%lookup_insert_Some; [set_solver|].
  pose proof (Hin k' r Hk') as Hr. rewrite Hcur in Hr.
  apply elem_of_cons in Hr as [->|Hr]; [|set_solver].
  apply Honly in Hk'. congruence.
Qed.

Lemma reused_identifier_leaves_no_stale_entry_witness :
  (∃ st, emitted (send C (Answers (IdInt 1)) (after_A_B (Some 2)))
         = [CallSend C st (Some A)]) ∧
  index_within_deque (final (send C (Answers (IdInt 1)) (after_A_B (Some 2)))).
Proof.
  refine (reused_identifier_leaves_no_stale_entry C (IdInt 1) A [B]
            (after_A_B (Some 2)) _ _ _ _).
  - reflexivity.
  - reflexivity.
  - intros k r. change (current_notifications (after_A_B (Some 2))) with [A; B].
    change (_notification_for_nid (self (after_A_B (Some 2))))
      with (<[IdInt 2 := B]> (<[IdInt 1 := A]> (∅ : gmap ident ref))).
    intros [[_ <-]|[_ [[_ <-]|[_ Hk]]%lookup_insert_Some]]%lookup_insert_Some.
    + apply list_elem_of_further, list_elem_of_here.
    + apply list_elem_of_here.
    + by rewrite lookup_empty in Hk.
  - intros k'.
    change (_notification_for_nid (self (after_A_B (Some 2))))
      with (<[IdInt 2 := B]> (<[IdInt 1 := A]> (∅ : gmap ident ref))).
    intros [[_ HBA]|[_ [[<- _]|[_ Hk]]%lookup_insert_Some]]%lookup_insert_Some.
    + unfold A, B in HBA. lia.
    + reflexivity.
    + by rewrite lookup_empty in Hk.
Defined.

(** ** What the platform is called with *)

(** X8. Whenever [send] calls the platform's [_send], it does so for the
    notification being sent, which has its old identifier and, but for the
    icon, its old content; the notification to replace is the oldest one of
    the deque when the deque is full, and [None] otherwise. *)
Theorem send_hands_over_oldest n p w m st repl :
  CallSend m st repl ∈ emitted (send n p w) →
  m = n ∧
  identifier st = identifier (heap w n) ∧
  same_content st (heap w n) ∧
  repl = to_replace w ∧
  (∀ x, repl = Some x →
        head (current_notifications w) = Some x ∧
        Some (Z.of_nat (length (current_notifications w)))
        = notification_limit (self w)) ∧
  (repl = None →
   Some (Z.of_nat (length (current_notifications w))) ≠ notification_limit (self w)).
Proof.
  intros Hin.
  destruct (send_events n p w)
    as [(Hnil & _)|(Hnz & st' & Hev & Hid & Hsame & _)].
  { rewrite Hnil in Hin. by apply elem_of_nil in Hin. }
  rewrite Hev in Hin. apply elem_of_cons in Hin as [Heq|Hin].
  - injection Heq as -> -> ->. split_and!; try done.
    + unfold to_replace. intros x. case_decide; [done|discriminate].
    + unfold to_replace. case_decide as Hfull; [|done].
      destruct (current_notifications w) as [|y l] eqn:Hcur; [|discriminate].
      intros _. exfalso. apply Hnz. by rewrite <- Hfull.
  - exfalso. destruct p as [k|e]; [by apply elem_of_nil in Hin|].
    destruct (is_Exception e); [|by apply elem_of_nil in Hin].
    apply list_elem_of_singleton in Hin. discriminate.
Qed.

Lemma send_hands_over_oldest_witness :
  Some A = to_replace (after_A_B (Some 2)).
Proof.
  refine (proj1 (proj2 (proj2 (proj2
            (send_hands_over_oldest C (Answers (IdInt 3)) (after_A_B (Some 2))
               C (set_icon (Some "x.png") plain) (Some A) _))))).
  vm_compute. apply list_elem_of_here.
Defined.

(** ** What no call changes *)

Lemma same_content_refl a : same_content a a.
Proof. by repeat split. Qed.

Lemma same_content_trans a b c :
  same_content a b → same_content b c → same_content a c.
Proof. unfold same_content. intros Hab Hbc. destruct_and!. split_and!; congruence. Qed.

Lemma exec_heap o w r :
  same_content (heap (final (exec o w)) r) (heap w r) ∧
  app_name (self (final (exec o w))) = app_name (self w) ∧
  app_icon (self (final (exec o w))) = app_icon (self w) ∧
  notification_limit (self (final (exec o w))) = notification_limit (self w).
Proof.
  destruct o as [n p|n p|p|n]; simpl.
  - split; [apply send_heap|apply send_settings].
  - rewrite clear_final. destruct (opt_ident_truthy _);
      [destruct p as [[]|e]|]; split; (apply same_content_refl || done).
  - rewrite clear_all_spec. destruct p as [[]|e];
      split; (apply same_content_refl || done).
  - rewrite cache_removal_spec. split; (apply same_content_refl || done).
Qed.

(** X9. No sequence of calls changes the title, the message, the urgency, the
    buttons, the callbacks, the attachment, the sound or the thread of any
    notification, hence not its [__repr__], nor the name, the default icon or
    the limit of the notifier. *)
Theorem run_keeps_content ops w r :
  same_content (heap (run ops w) r) (heap w r) ∧
  Notification__repr__ (heap (run ops w) r) = Notification__repr__ (heap w r) ∧
  app_name (self (run ops w)) = app_name (self w) ∧
  app_icon (self (run ops w)) = app_icon (self w) ∧
  notification_limit (self (run ops w)) = notification_limit (self w).
Proof.
  assert (same_content (heap (run ops w) r) (heap w r) ∧
          app_name (self (run ops w)) = app_name (self w) ∧
          app_icon (self (run ops w)) = app_icon (self w) ∧
          notification_limit (self (run ops w)) = notification_limit (self w))
    as (Hc & Hn & Hi & Hl).
  { revert w. induction ops as [|o ops IH]; intros w; simpl.
    { split; [apply same_content_refl|done]. }
    destruct (IH (final (exec o w))) as (Hc & Hn & Hi & Hl).
    destruct (exec_heap o w r) as (Hc' & Hn' & Hi' & Hl').
    split; [by eapply same_content_trans|]. split_and!; congruence. }
  split_and!; try done.
  unfold Notification__repr__. destruct Hc as (-> & -> & _). done.
Qed.

(** X10. No call takes an identifier away: a notification that has an
    identifier has one after any sequence of calls, [clear] and [clear_all]
    included; and the identifier of a notification stays what it is as long as
    no [send] of that notification is answered with an identifier. *)
Theorem identifier_is_never_reset ops w n :
  (identifier (heap w n) ≠ None → identifier (heap (run ops w) n) ≠ None) ∧
  (n ∉ delivered ops → identifier (heap (run ops w) n) = identifier (heap w n)).
Proof.
  revert w. induction ops as [|o ops IH]; intros w; simpl; [done|].
  destruct (IH (final (exec o w))) as [IH1 IH2].
  destruct o as [m p|m p|p|m]; simpl in *.
  - destruct (send_identifier m p w n) as [Hsame|(-> & k & -> & Hk)].
    + split.
      * intros Hn. apply IH1. by rewrite Hsame.
      * intros Hd. rewrite <- Hsame. apply IH2. destruct p; set_solver.
    + split.
      * intros _. apply IH1. by rewrite Hk.
      * intros Hd. set_solver.
  - assert (heap (final (clear m p w)) = heap w) as Hh.
    { rewrite clear_final. destruct (opt_ident_truthy _); [|done]. by destruct p. }
    rewrite Hh in IH1, IH2. done.
  - assert (heap (final (clear_all p w)) = heap w) as Hh.
    { rewrite clear_all_spec. by destruct p as [[]|e]. }
    rewrite Hh in IH1, IH2. done.
  - rewrite cache_removal_spec in *. exact (conj IH1 IH2).
Qed.

Lemma identifier_is_never_reset_witness :
  identifier (heap (run [Clear A (Answers tt); ClearAll (Answers tt)]
                        (after_A_B None)) A) ≠ None.
Proof.
  refine (proj1 (identifier_is_never_reset
                   [Clear A (Answers tt); ClearAll (Answers tt)] (after_A_B None) A) _).
  vm_compute. discriminate.
Defined.

Lemma send_icon_kept m p w n :
  opt_str_truthy (icon (heap w n)) = true →
  icon (heap (final (send m p w)) n) = icon (heap w n).
Proof.
  intros Hicon. destruct (decide (n = m)) as [->|Hnm].
  - by rewrite send_icon, Hicon.
  - by rewrite (proj1 (send_heap m p w n) Hnm).
Qed.

(** X11. An icon that is a true value stays: no sequence of calls, of [send]
    for the same notification included, replaces an icon that is not [None]
    and not the empty string. *)
Theorem icon_is_filled_once ops w n :
  opt_str_truthy (icon (heap w n)) = true →
  icon (heap (run ops w) n) = icon (heap w n).
Proof.
  revert w. induction ops as [|o ops IH]; intros w Hicon; simpl; [done|].
  assert (icon (heap (final (exec o w)) n) = icon (heap w n)) as Hstep.
  { destruct o as [m p|m p|p|m]; simpl.
    - by apply send_icon_kept.
    - rewrite clear_final. destruct (opt_ident_truthy _); [|done]. by destruct p.
    - rewrite clear_all_spec. by destruct p as [[]|e].
    - by rewrite cache_removal_spec. }
  rewrite IH; [done|]. by rewrite Hstep.
Qed.

Lemma icon_is_filled_once_witness :
  icon (heap (run [Send A (Answers (IdInt 4))] (after_A_B None)) A)
  = icon (heap (after_A_B None) A).
Proof.
  refine (icon_is_filled_once [Send A (Answers (IdInt 4))] (after_A_B None) A _).
  reflexivity.
Defined.

(** ** A platform that always fails *)

Lemma failing_run ops w :
  forallb platform_fails ops = true →
  current_notifications w = [] →
  _notification_for_nid (self w) = ∅ →
  current_notifications (run ops w) = [] ∧
  _notification_for_nid (self (run ops w)) = ∅ ∧
  ∀ r, identifier (heap (run ops w) r) = identifier (heap w r).
Proof.
  revert w. induction ops as [|o ops IH]; intros w Hops Hcur Hidx; simpl; [done|].
  simpl in Hops. apply andb_prop in Hops as [Ho Hops].
  assert (∀ m, current_notifications (without m w) = [] ∧
               _notification_for_nid (self (without m w)) = ∅) as Hwo.
  { intros m. unfold current_notifications in *. simpl. rewrite Hcur, Hidx.
    split; [done|]. destruct (identifier _) as [k|]; [|done].
    destruct (ident_truthy k); [apply delete_empty|done]. }
  destruct o as [m [k|e]|m [[]|e]|[[]|e]|m]; try discriminate; simpl.
  - destruct (send_throws_registry m e w) as (Hi & _ & Hc).
    destruct (IH (final (send m (Throws e) w)) Hops) as (H1 & H2 & H3).
    + destruct Hc as [-> | ->]; by rewrite Hcur.
    + by rewrite Hi.
    + split_and!; [done..|]. intros r. by rewrite H3, send_throws_identifier.
  - rewrite clear_final.
    destruct (opt_ident_truthy _); [by apply IH|].
    destruct (Hwo m). by apply (IH (without m w)).
  - rewrite clear_all_spec. by apply IH.
  - rewrite cache_removal_spec. destruct (Hwo m). by apply (IH (without m w)).
Qed.

(** X12. When every call that reaches the platform raises, as every call does
    in the base class itself, whose [_send], [_clear] and [_clear_all] raise
    [NotImplementedError], the notifier tracks nothing: after any sequence of
    calls the deque and the index are empty and every notification has the
    identifier it had at the start. *)
Theorem failing_platform_tracks_nothing h name icon limit s ops :
  DesktopNotifierBase__init__ name icon limit = Returned s →
  forallb platform_fails ops = true →
  current_notifications (run ops (start h s)) = [] ∧
  _notification_for_nid (self (run ops (start h s))) = ∅ ∧
  ∀ r, identifier (heap (run ops (start h s)) r) = identifier (h r).
Proof.
  intros [-> _]%init_returns Hops.
  by apply (failing_run ops (start h _) Hops).
Qed.

Lemma failing_platform_tracks_nothing_witness :
  current_notifications
    (run [Send A (Throws NotImplementedError); Clear A (Throws NotImplementedError);
          ClearAll (Throws NotImplementedError)]
         (start objects (notifier None))) = [].
Proof.
  refine (proj1 (failing_platform_tracks_nothing objects "Python" (Some "x.png")
            None (notifier None)
            [Send A (Throws NotImplementedError); Clear A (Throws NotImplementedError);
             ClearAll (Throws NotImplementedError)] _ _)); reflexivity.
Defined.

(** ** The order of the deque *)

Lemma exec_sublist o w d :
  tracked w →
  current_notifications w `sublist_of` d →
  current_notifications (final (exec o w)) `sublist_of` d ++ delivered [o].
Proof.
  intros [Hzero _] Hsub.
  assert (∀ n, current_notifications (without n w) `sublist_of` d) as Hwo.
  { intros n. trans (current_notifications w); [|done]. apply remove_first_sublist. }
  destruct o as [n [k|e]|n p|p|n]; simpl; rewrite ?app_nil_r.
  - destruct (decide (notification_limit (self w) = Some 0)) as [Hlim|Hlim].
    + destruct (send_limit_zero n (Answers k) w Hlim (Hzero Hlim))
        as (_ & _ & Hself & _).
      unfold current_notifications in *. rewrite Hself.
      by apply sublist_inserts_r.
    + destruct (send_answers_spec n k w Hlim) as (_ & Hcur & _).
      rewrite Hcur. apply sublist_app; [|done].
      destruct (decide _); [|done].
      trans (current_notifications w); [|done].
      destruct (current_notifications w); simpl; [done|]. by apply sublist_cons.
  - destruct (send_throws_registry n e w) as (_ & _ & [Hcur|Hcur]);
      rewrite Hcur; [done|].
    trans (current_notifications w); [|done].
    destruct (current_notifications w); simpl; [done|]. by apply sublist_cons.
  - rewrite clear_final. destruct (opt_ident_truthy _); [|apply Hwo].
    destruct p as [[]|e]; [apply Hwo|done].
  - rewrite clear_all_spec. destruct p as [[]|e]; [|done]. apply sublist_nil_l.
  - rewrite cache_removal_spec. apply Hwo.
Qed.

(** X13. In every state that a notifier reaches from its construction, the
    deque lists notifications in the order of their delivery: it is what is
    left of the sequence of delivered notifications after some of them were
    taken out. *)
Theorem current_in_delivery_order h name icon limit s ops :
  DesktopNotifierBase__init__ name icon limit = Returned s →
  current_notifications (run ops (start h s)) `sublist_of` delivered ops.
Proof.
  intros Hs. destruct (init_tracked h _ _ _ _ Hs) as [Ht _].
  induction ops as [|o ops IH] using rev_ind.
  { by destruct (init_returns _ _ _ _ Hs) as [-> _]. }
  rewrite run_app, delivered_app. simpl.
  apply exec_sublist; [|done]. by apply run_tracked.
Qed.

Lemma current_in_delivery_order_witness :
  current_notifications after_A_B_C
  `sublist_of` delivered [Send A (Answers (IdInt 1)); Send B (Answers (IdInt 2));
                          Send C (Answers (IdInt 3))].
Proof.
  refine (current_in_delivery_order objects "Python" (Some "x.png") (Some 2)
            (notifier (Some 2))
            [Send A (Answers (IdInt 1)); Send B (Answers (IdInt 2));
             Send C (Answers (IdInt 3))] _).
  reflexivity.
Defined.

(** ** Sending a notification again *)

(** X14. A notification that is delivered a second time, under another
    identifier, leaves its entry under the old identifier behind: the second
    [send] does not touch that entry, and a [clear] of the notification, which
    goes by the new identifier, does not either. *)
Theorem resend_orphans_old_entry n k0 k p w :
  notification_limit (self w) ≠ Some 0 →
  k ≠ k0 →
  _notification_for_nid (self (final (send n (Answers k) w))) !! k0
  = _notification_for_nid (self w) !! k0 ∧
  _notification_for_nid
    (self (final (clear n p (final (send n (Answers k) w))))) !! k0
  = _notification_for_nid (self w) !! k0.
Proof.
  intros Hlim Hk.
  destruct (send_answers_spec n k w Hlim) as (_ & _ & Hidx & _ & _ & Hident).
  specialize (Hident n). rewrite decide_True in Hident by done.
  assert (_notification_for_nid (self (final (send n (Answers k) w))) !! k0
          = _notification_for_nid (self w) !! k0) as Hsend.
  { by rewrite Hidx, lookup_insert_ne. }
  split; [done|]. rewrite clear_final, Hident. simpl.
  destruct (ident_truthy k) eqn:Htrue.
  - destruct p as [[]|e]; [|done]. simpl. rewrite Hident, Htrue.
    by rewrite lookup_delete_ne.
  - simpl. by rewrite Hident, Htrue.
Qed.

Lemma resend_orphans_old_entry_witness :
  _notification_for_nid
    (self (final (clear A (Answers tt)
                    (final (send A (Answers (IdInt 4)) (after_A_B None)))))) !! IdInt 1
  = _notification_for_nid (self (after_A_B None)) !! IdInt 1.
Proof.
  refine (proj2 (resend_orphans_old_entry A (IdInt 1) (IdInt 4) (Answers tt)
                   (after_A_B None) _ _)).
  - vm_compute. discriminate.
  - discriminate.
Defined.

(** The authorisation methods of the base class raise and change nothing. *)
Lemma authorisation_not_implemented w :
  request_authorisation w = (w, [], Raised NotImplementedError) ∧
  has_authorisation w = (w, [], Raised NotImplementedError).
Proof. done. Qed.
